(** * Loan amortization engine: a shallow embedding of [api/utils.py],
      [api/enums.py], and of the schedule, the summary, the users and the
      sharing of [api/crud.py]

    The Python code computes with [float], that is IEEE 754 binary64.  The
    embedding uses Rocq's primitive floats, which are the same format with
    the same correctly rounded [+], [-], [*] and [/], so that every
    definition below can be evaluated on concrete loans and the results
    compared digit for digit with the values in the repository's tests.

    The file has four parts: the model (Python's float operations as the
    code uses them, then the source functions); the vocabulary of the
    statements; what is needed of rounding on binary64; and the properties of
    the engine and of what [api/crud.py] serves and stores, followed by
    worked instances. *)

From Stdlib Require Import ZArith List Bool Lia Floats.
From Stdlib Require String.
Import ListNotations.
Import String.StringSyntax.
Delimit Scope string_scope with string.
Bind Scope string_scope with String.string.

Set Warnings "-inexact-float".
Local Open Scope Z_scope.

(** ** Exceptions and fallible computations *)

(** The exceptions the modelled code can raise.  [HTTPException] carries its
    status code. *)
Inductive exn : Type :=
| ZeroDivisionError
| OverflowError
| HTTPException (status_code : Z).

Inductive result (A : Type) : Type :=
| Ok (a : A)
| Raise (e : exn).

Arguments Ok {A} a.
Arguments Raise {A} e.

Definition bind {A B : Type} (c : result A) (k : A -> result B) : result B :=
  match c with
  | Ok a => k a
  | Raise e => Raise e
  end.

Notation "x <- c ;; k" := (bind c (fun x => k))
  (at level 61, c at next level, right associativity).

(** ** Python's [float] *)

Module PyFloat.

(** [p / q] rounded to the nearest integer, ties to the even one
    ([q] positive). *)
Definition round_half_even (p q : Z) : Z :=
  let d := p / q in
  match 2 * (p mod q) ?= q with
  | Lt => d
  | Gt => d + 1
  | Eq => if Z.even d then d else d + 1
  end.

(** The binary64 number nearest to [n / d] (ties to even), with sign [s]:
    what [strtod] returns for a decimal string. *)
Definition of_ratio (s : bool) (n d : positive) : float :=
  SF2Prim (SFdiv prec emax (S754_finite s n 0) (S754_finite false d 0)).

(** The binary64 number nearest to the integer [z]. *)
Definition of_Z (z : Z) : float :=
  SF2Prim (binary_normalize prec emax z 0 false).

(** [float(z)] for a Python [int]: [PyLong_AsDouble] rounds to nearest
    even and raises [OverflowError] beyond the largest finite double. *)
Definition of_int (z : Z) : result float :=
  let f := of_Z z in
  if is_infinity f then Raise OverflowError else Ok f.

(** The integer part of a finite float, sign included (truncation). *)
Definition trunc (y : float) : Z :=
  match Prim2SF y with
  | S754_finite s m e =>
      let a := if 0 <=? e then Zpos m * 2 ^ e else Zpos m / 2 ^ (- e) in
      if s then - a else a
  | _ => 0
  end.

(** [a / b] on floats: [float_div] raises on a zero divisor. *)
Definition truediv (a b : float) : result float :=
  if (b =? 0)%float then Raise ZeroDivisionError else Ok (a / b)%float.

(** [a / n] for a float [a] and an int [n]: the int is converted first. *)
Definition truediv_int (a : float) (n : Z) : result float :=
  b <- of_int n ;; truediv a b.

(** [round(x, ndigits)] for a float [x] and [0 <= ndigits] (CPython's
    [double_round] with short float repr): the decimal string with
    [ndigits] digits after the point that is nearest to the exact value of
    [x], ties to even, read back as the nearest double.  Infinities and
    NaN round to themselves; the sign survives a zero result. *)
Definition round (x : float) (ndigits : Z) : float :=
  match Prim2SF x with
  | S754_finite s m e =>
      let scale := 10 ^ ndigits in
      let n := if 0 <=? e then Zpos m * scale * 2 ^ e
               else round_half_even (Zpos m * scale) (2 ^ (- e)) in
      match n with
      | Zpos p => of_ratio s p (Z.to_pos scale)
      | _ => if s then neg_zero else zero
      end
  | _ => x
  end.

(** The C library's [pow], which [float.__pow__] calls for a finite
    positive base other than 1 and a finite non-zero exponent, is not part
    of Python or of the repository; it is a parameter of [pow] below.
    [libm_pow_exact] is the instance used to evaluate the model: the exact
    power of the base, correctly rounded (integral exponents only). *)
Definition libm_pow_exact (x y : float) : float :=
  match Prim2SF x with
  | S754_finite false m e =>
      let n := trunc y in
      if 0 <=? n
      then SF2Prim (binary_normalize prec emax (Zpos m ^ n) (e * n) false)
      else SF2Prim (SFdiv prec emax (S754_finite false 1 0)
                      (S754_finite false (Z.to_pos (Zpos m ^ (- n))) (e * (- n))))
  | _ => nan
  end.

(** [libm] is within one unit in the last place of the exact power at
    [(x, y)]: it returns the correctly rounded value or one of its two
    neighbours. *)
Definition one_ulp_at (libm : float -> float -> float) (x y : float) : Prop :=
  let c := libm_pow_exact x y in
  libm x y = c \/ libm x y = next_up c \/ libm x y = next_down c.

Section Pow.
Variable libm_pow : float -> float -> float.

(** [iv ** n] for a float [iv] and an int [n] ([float_pow] in
    [floatobject.c]): the exponent is converted to a double, the special
    cases are sorted out before the C library is called, and an
    infinite result of the library is reported as [OverflowError].  (The
    library's [errno] on underflow, which CPython discards for a zero
    result, is not modelled.) *)
Definition pow (iv : float) (n : Z) : result float :=
  iw <- of_int n ;;
  let odd := Z.odd (trunc iw) in
  if (iw =? 0)%float then Ok 1%float
  else if is_nan iv then Ok iv
  else if is_infinity iv then
    Ok (if (0 <? iw)%float
        then (if odd then iv else abs iv)
        else (if odd then (if get_sign iv then neg_zero else zero) else zero))
  else if (iv =? 0)%float then
    if (iw <? 0)%float then Raise ZeroDivisionError
    else Ok (if odd then iv else zero)
  else
    let negate_result := (iv <? 0)%float && odd in
    let iv' := if (iv <? 0)%float then (- iv)%float else iv in
    if (iv' =? 1)%float then Ok (if negate_result then (-1)%float else 1%float)
    else
      let ix := libm_pow iv' iw in
      if is_infinity ix then Raise OverflowError
      else Ok (if negate_result then (- ix)%float else ix).
End Pow.

End PyFloat.

(** ** [api/enums.py] *)

Inductive PaymentFrequency : Type :=
| DAILY | BIWEEKLY | WEEKLY | SEMIMONTHLY | MONTHLY | QUARTERLY | SEMIYEARLY | YEARLY.

Definition value (f : PaymentFrequency) : Z :=
  match f with
  | DAILY => 365
  | BIWEEKLY => 104
  | WEEKLY => 52
  | SEMIMONTHLY => 24
  | MONTHLY => 12
  | QUARTERLY => 4
  | SEMIYEARLY => 2
  | YEARLY => 1
  end.

(** ** [api/utils.py] *)

(** One tuple yielded by [amortization_schedule]:
    [(number, amortization_amount, interest, principal_payment, balance)].
    The fields carry the names the specification gives them.  The [0] that
    closes the schedule is the int [0], which compares equal to and is
    stored as the float [0.0]. *)
Record ScheduleRow : Type := {
  period : Z;
  payment_amount : float;
  interest_component : float;
  principal_component : float;
  remaining_balance : float
}.

Section Engine.
Variable libm_pow : float -> float -> float.

(** [principal] and [interest_rate] are floats, as annotated; an int passed
    for one of them (the tests pass [150000] and [0]) is converted to the
    float of the same value by the first operation it meets. *)
Definition calculate_amortization_amount
    (principal interest_rate : float) (period : Z)
    (payment_frequency : PaymentFrequency) : result float :=
  adjusted_interest <- PyFloat.truediv_int interest_rate (value payment_frequency) ;;
  x <- PyFloat.pow libm_pow (1 + adjusted_interest)%float period ;;
  q <- PyFloat.truediv (principal * (adjusted_interest * x))%float (x - 1)%float ;;
  Ok (PyFloat.round q 2).

(** The body of [for number in range(1, period)], run for the [count]
    numbers starting at [number]; returns the rows yielded and the balance
    the loop leaves behind. *)
Fixpoint schedule_loop (amortization_amount adjusted_interest : float)
    (count : nat) (number : Z) (balance : float) : list ScheduleRow * float :=
  match count with
  | O => ([], balance)
  | S count' =>
      let interest := PyFloat.round (balance * adjusted_interest)%float 2 in
      let principal_payment := (amortization_amount - interest)%float in
      let balance := (balance - principal_payment)%float in
      let (rows, final) :=
        schedule_loop amortization_amount adjusted_interest count' (number + 1) balance in
      ({| period := number;
          payment_amount := amortization_amount;
          interest_component := interest;
          principal_component := principal_payment;
          remaining_balance := balance |} :: rows, final)
  end.

(** The generator, run to exhaustion.  An exception can only come from the
    statements before the first [yield], so the outcome is either that
    exception and no row, or the complete list of rows. *)
Definition amortization_schedule
    (principal interest_rate : float) (period : Z)
    (payment_frequency : PaymentFrequency) : result (list ScheduleRow) :=
  amortization_amount <-
    calculate_amortization_amount principal interest_rate period payment_frequency ;;
  adjusted_interest <- PyFloat.truediv_int interest_rate (value payment_frequency) ;;
  let (rows, balance) :=
    schedule_loop amortization_amount adjusted_interest
      (Z.to_nat (period - 1)) 1 principal in
  let interest := PyFloat.round (balance * adjusted_interest)%float 2 in
  Ok (rows ++ [ {| period := period;
                   payment_amount := (balance + interest)%float;
                   interest_component := interest;
                   principal_component := balance;
                   remaining_balance := 0%float |} ]).

End Engine.

(** ** [api/models.py], [api/schemas.py] and [api/crud.py] *)

(** A row of the [loans] table. *)
Record Loan : Type := {
  id : Z;
  amount : float;
  annual_interest_rate : float;
  loan_term_months : Z;
  frequency : PaymentFrequency;
  user_id : Z
}.

Record LoanSummary : Type := {
  current_principal_balance : float;
  aggregate_principal_paid : float;
  aggregate_interest_paid : float
}.

(** The database session, reduced to the table the summary reads. *)
Definition Session : Type := list Loan.

(** [db.query(Loan).filter(Loan.id == loan_id).first()] *)
Definition query_first (db : Session) (loan_id : Z) : option Loan :=
  find (fun l => id l =? loan_id) db.

(** The slice [l[:stop]]: a negative [stop] counts from the end, and a
    [stop] past either end is clipped, never an error. *)
Definition slice_to {A : Type} (l : list A) (stop : Z) : list A :=
  if 0 <=? stop then firstn (Z.to_nat stop) l
  else firstn (length l - Z.to_nat (- stop)) l.

(** The three running variables of [get_loan_summary]. *)
Definition summary_step (acc : float * float * float) (month_data : ScheduleRow)
    : float * float * float :=
  let '(_, aggregate_principal_paid, aggregate_interest_paid) := acc in
  (remaining_balance month_data,
   (aggregate_principal_paid + principal_component month_data)%float,
   (aggregate_interest_paid + interest_component month_data)%float).

Section Crud.
Variable libm_pow : float -> float -> float.

(** The three running variables start at the int [0]; added to a float, or
    stored in a [LoanSummary], it is the float [0.0]. *)
Definition get_loan_summary (loan_id month : Z) (db : Session) : result LoanSummary :=
  match query_first db loan_id with
  | None => Raise (HTTPException 404)
  | Some db_loan =>
      interest_rate <- PyFloat.truediv_int (annual_interest_rate db_loan) 100 ;;
      amortization_data <-
        amortization_schedule libm_pow (amount db_loan) interest_rate
          (loan_term_months db_loan) (frequency db_loan) ;;
      let '(current, principal_paid, interest_paid) :=
        fold_left summary_step (slice_to amortization_data month)
          (0%float, 0%float, 0%float) in
      Ok {| current_principal_balance := PyFloat.round current 2;
            aggregate_principal_paid := PyFloat.round principal_paid 2;
            aggregate_interest_paid := PyFloat.round interest_paid 2 |}
  end.
End Crud.

(** An entry of the schedule as it is served: [LoanSchedule] of
    [api/schemas.py]. *)
Module LoanSchedule.
Record t : Type := {
  month : Z;
  remaining_balance : float;
  monthly_payment : float
}.
End LoanSchedule.

Section CrudSchedule.
Variable libm_pow : float -> float -> float.

(** The balance of the closing row is the int [0]; [round(0, 2)] is [0],
    stored in a [LoanSchedule] as the float [0.0]. *)
Definition get_loan_schedule (loan_id : Z) (db : Session) : result (list LoanSchedule.t) :=
  match query_first db loan_id with
  | Some db_loan =>
      interest_rate <- PyFloat.truediv_int (annual_interest_rate db_loan) 100 ;;
      amortization_data <-
        amortization_schedule libm_pow (amount db_loan) interest_rate
          (loan_term_months db_loan) (frequency db_loan) ;;
      Ok (map (fun row =>
                 {| LoanSchedule.month := period row;
                    LoanSchedule.remaining_balance :=
                      PyFloat.round (remaining_balance row) 2;
                    LoanSchedule.monthly_payment :=
                      PyFloat.round (payment_amount row) 2 |})
              amortization_data)
  | None => Raise (HTTPException 404)
  end.
End CrudSchedule.

(** *** Users, and the loans they hold *)

(** A row of the [users] table. *)
Module User.
Record t : Type := {
  id : Z;
  email : String.string;
  hashed_password : String.string;
  is_active : bool
}.
End User.

(** The request body of a registration ([UserCreate] of [api/schemas.py]). *)
Module UserCreate.
Record t : Type := {
  email : String.string;
  password : String.string
}.
End UserCreate.

(** The session with both tables, each one the list of its rows in the
    order in which the database returns them.  Keys are the INTEGER keys of
    the database: a Python int beyond 64 bits, which the driver refuses to
    bind, is outside the model, and so is a database that fails to
    answer. *)
Record Database : Type := {
  users : list User.t;
  loans : Session
}.

(** What a call into the user and sharing part of [api/crud.py] does: it
    returns, or raises [HTTPException(status_code, detail)], or lets the
    database's [IntegrityError] through. *)
Inductive answer (A : Type) : Type :=
| Returns (a : A)
| Raises_HTTPException (status_code : Z) (detail : String.string)
| Raises_IntegrityError.

Arguments Returns {A} a.
Arguments Raises_HTTPException {A} status_code detail.
Arguments Raises_IntegrityError {A}.

(** [query.first()] returns [None] when there is no row; it never raises
    [NoResultFound], so the handlers of [get_user] and [get_user_by_email]
    stay idle. *)
Definition get_user (db : Database) (user_id : Z) : option User.t :=
  find (fun u => User.id u =? user_id) (users db).

Definition get_user_by_email (db : Database) (email : String.string) : option User.t :=
  find (fun u => String.eqb (User.email u) email) (users db).

(** [query.offset(skip).limit(limit).all()] on SQLite: a negative OFFSET
    skips nothing, a negative LIMIT is no limit. *)
Definition offset_limit {A : Type} (skip limit : Z) (rows : list A) : list A :=
  let rest := skipn (Z.to_nat skip) rows in
  if limit <? 0 then rest else firstn (Z.to_nat limit) rest.

Definition get_users (db : Database) (skip limit : Z) : list User.t :=
  offset_limit skip limit (users db).

Definition get_user_loans (uid : Z) (db : Database) (skip limit : Z) : answer (list Loan) :=
  match find (fun u => User.id u =? uid) (users db) with
  | Some db_user =>
      Returns (offset_limit skip limit
                 (filter (fun l => user_id l =? User.id db_user) (loans db)))
  | None => Raises_HTTPException 404 "User not found"%string
  end.

(** [loan.user_id = user_to_share.id; db.commit()]: the row with the key
    of [loan] gets its new owner, and nothing else is written. *)
Definition assign_owner (loan_id owner : Z) (l : Loan) : Loan :=
  if id l =? loan_id
  then {| id := id l; amount := amount l;
          annual_interest_rate := annual_interest_rate l;
          loan_term_months := loan_term_months l;
          frequency := frequency l; user_id := owner |}
  else l.

Definition share_loan (loan_id uid : Z) (db : Database)
    : answer (String.string * Database) :=
  match query_first (loans db) loan_id with
  | None => Raises_HTTPException 404 "Loan not found"%string
  | Some loan =>
      match find (fun u => User.id u =? uid) (users db) with
      | None => Raises_HTTPException 404 "User not found"%string
      | Some user_to_share =>
          Returns ("Loan shared successfully"%string,
                   {| users := users db;
                      loans := map (assign_owner (id loan) (User.id user_to_share))
                                 (loans db) |})
      end
  end.

Section Registration.
(** The key the database gives a new row, from the keys in use. *)
Variable new_id : list Z -> Z.

(** [db.add; db.commit; db.refresh]: the unique index on [users.email]
    refuses a second row with the same email; otherwise the row is stored
    with its new key and [is_active] at its default. *)
Definition create_user (db : Database) (user : UserCreate.t) : answer (User.t * Database) :=
  let fake_hashed_password :=
    String.append (UserCreate.password user) "notreallyhashed"%string in
  if existsb (fun u => String.eqb (User.email u) (UserCreate.email user)) (users db)
  then Raises_IntegrityError
  else
    let db_user :=
      {| User.id := new_id (map User.id (users db));
         User.email := UserCreate.email user;
         User.hashed_password := fake_hashed_password;
         User.is_active := true |} in
    Returns (db_user, {| users := users db ++ [db_user]; loans := loans db |}).

(** [create_user_endpoint] of [api/main.py]. *)
Definition create_user_endpoint (user : UserCreate.t) (db : Database)
    : answer (User.t * Database) :=
  match get_user_by_email db (UserCreate.email user) with
  | Some db_user =>
      Raises_HTTPException 400
        (String.append "Email "%string (String.append (User.email db_user) " already registered"%string))
  | None => create_user db user
  end.
End Registration.

(** * Vocabulary of the statements *)

(** [interest_rate / payment_frequency.value], which never raises: no
    frequency has the value zero. *)
Definition per_period_rate (interest_rate : float) (f : PaymentFrequency) : float :=
  (interest_rate / PyFloat.of_Z (value f))%float.

(** The row that closes a schedule left at [balance]. *)
Definition closing_row (number : Z) (adjusted_interest balance : float) : ScheduleRow :=
  let interest := PyFloat.round (balance * adjusted_interest)%float 2 in
  {| period := number;
     payment_amount := (balance + interest)%float;
     interest_component := interest;
     principal_component := balance;
     remaining_balance := 0%float |}.

(** [rows] are consecutive loop rows for the fixed payment [a], starting from
    the balance [b]: each one takes the rounded interest on the balance before
    it, pays [a - interest] of principal and leaves the balance less that. *)
Fixpoint follows (a adj b : float) (rows : list ScheduleRow) : Prop :=
  match rows with
  | [] => True
  | r :: rest =>
      payment_amount r = a /\
      interest_component r = PyFloat.round (b * adj)%float 2 /\
      principal_component r = (a - interest_component r)%float /\
      remaining_balance r = (b - principal_component r)%float /\
      follows a adj (remaining_balance r) rest
  end.

(** The numbers [k, k+1, ..., k+n-1]. *)
Definition numbers_from (k : Z) (n : nat) : list Z :=
  map (fun i => k + Z.of_nat i) (seq 0 n).

(** [l] never increases from one element to the next, by the float [<=]. *)
Fixpoint non_increasing (l : list float) : Prop :=
  match l with
  | a :: (b :: _) as rest => (b <=? a)%float = true /\ non_increasing rest
  | _ => True
  end.

(** [x] is not a NaN. *)
Definition is_number (x : float) : Prop := Prim2SF x <> S754_nan.

(** The value of a finite binary64 number with mantissa [m] and exponent
    [e], counted in units of [2^-1074], the smallest positive one. *)
Definition units (m : positive) (e : Z) : Z := Zpos m * 2 ^ (e + 1074).

(** The record [y] is the record [x] shifted right by [k] bits: the mantissa
    is divided by [2^k], and the round and sticky bits are clear when no set
    bit was shifted out. *)
Definition shifted (k : Z) (x y : shr_record) : Prop :=
  shr_m y = shr_m x / 2 ^ k /\
  (shr_m x mod 2 ^ k = 0 -> shr_r x = false -> shr_s x = false ->
   shr_r y = false /\ shr_s y = false).

(** The model evaluated with [PyFloat.libm_pow_exact] for the C library's
    [pow]. *)
Definition calc_exact := calculate_amortization_amount PyFloat.libm_pow_exact.
Definition schedule_exact := amortization_schedule PyFloat.libm_pow_exact.
Definition summary_exact := get_loan_summary PyFloat.libm_pow_exact.

(** The loan of the end-to-end test, and the table that holds it. *)
Definition example_loan : Loan :=
  {| id := 1; amount := 1000; annual_interest_rate := 5; loan_term_months := 36;
     frequency := MONTHLY; user_id := 1 |}.

Definition example_db : Session := [example_loan].

(** The three rows of a loan of 1000 at 5% over three months. *)
Definition three_months : list ScheduleRow :=
  Eval vm_compute in
    match schedule_exact 1000 (5 / 100) 3 MONTHLY with
    | Ok rows => rows
    | Raise _ => []
    end.

(** ** Vocabulary for the served schedule, the users and the sharing *)

(** The entry served for a row of the schedule. *)
Definition serve (row : ScheduleRow) : LoanSchedule.t :=
  {| LoanSchedule.month := period row;
     LoanSchedule.remaining_balance := PyFloat.round (remaining_balance row) 2;
     LoanSchedule.monthly_payment := PyFloat.round (payment_amount row) 2 |}.

(** The balance a schedule stands at before its row of index [i]: the
    principal before the first row, then what the row before has left. *)
Definition balance_before (principal : float) (rows : list ScheduleRow) (i : nat) : float :=
  match i with
  | O => principal
  | S j => nth j (map remaining_balance rows) principal
  end.

(** [x] is [0.0], [-0.0] or a NaN. *)
Definition zero_or_nan (x : float) : Prop :=
  (x =? 0)%float = true \/ is_nan x = true.

(** The loan [l] in the hands of [owner]. *)
Definition with_owner (owner : Z) (l : Loan) : Loan :=
  {| id := id l; amount := amount l;
     annual_interest_rate := annual_interest_rate l;
     loan_term_months := loan_term_months l;
     frequency := frequency l; user_id := owner |}.

(** The detail of the answer to a second registration of [email]. *)
Definition already_registered (email : String.string) : String.string :=
  String.append "Email "%string (String.append email " already registered"%string).

(** The number of rows of a page: what is left of [n] rows after [skip],
    cut at [limit] unless [limit] is negative. *)
Definition page_length (n skip limit : Z) : Z :=
  let rest := Z.max 0 (n - Z.max 0 skip) in
  if limit <? 0 then rest else Z.min limit rest.

Definition served_exact := get_loan_schedule PyFloat.libm_pow_exact.

(** The schedule served for the loan of [example_db]. *)
Definition example_served : list LoanSchedule.t :=
  Eval vm_compute in
    match served_exact 1 example_db with
    | Ok entries => entries
    | Raise _ => []
    end.

(** A loan at 0%, and the table that holds it. *)
Definition zero_rate_loan : Loan :=
  {| id := 2; amount := 1000; annual_interest_rate := 0; loan_term_months := 12;
     frequency := MONTHLY; user_id := 1 |}.

Definition zero_rate_db : Session := [zero_rate_loan].

(** The key SQLite gives a new row: one more than the largest in use, [1]
    in an empty table. *)
Definition next_rowid (keys : list Z) : Z :=
  match keys with
  | [] => 1
  | k :: rest => 1 + fold_right Z.max k rest
  end.

(** The database of the sharing test: two users, the first of whom holds
    the loan of [example_db]. *)
Definition empty_store : Database := {| users := []; loans := [] |}.

Definition first_user : User.t :=
  {| User.id := 1; User.email := "test7@example.com";
     User.hashed_password := "test7notreallyhashed"; User.is_active := true |}.

Definition second_user : User.t :=
  {| User.id := 2; User.email := "test8@example.com";
     User.hashed_password := "test8notreallyhashed"; User.is_active := true |}.

Definition example_store : Database :=
  {| users := [first_user; second_user]; loans := example_db |}.

Definition shared_store : Database :=
  {| users := [first_user; second_user]; loans := [with_owner 2 example_loan] |}.

(** * Rounding on binary64

    The primitive operations are specified in the standard library by the
    functions of [SpecFloat] on sign, mantissa and exponent.  This part
    derives from them what the schedule needs: taking away a number that is
    not negative never gives a larger number.  The route is through the
    rounding [binary_round]: its result is the exact value cut to 53 bits,
    or the next number above, and so lies on the same side of every binary64
    number as the exact value. *)

(** The canonical exponent of binary64: 53 bits of precision, and no
    exponent below -1074. *)
Lemma fexp_eq e : fexp prec emax e = Z.max (e - 53) (-1074).
Proof. reflexivity. Qed.

(** [digits2_pos m] is the number of bits of [m]. *)
Lemma digits_bounds (m : positive) :
  2 ^ (Zpos (digits2_pos m) - 1) <= Zpos m < 2 ^ Zpos (digits2_pos m).
Proof.
  induction m as [m IH|m IH|]; cbn [digits2_pos].
  - rewrite Pos2Z.inj_succ, Pos2Z.inj_xI.
    replace (Z.succ (Zpos (digits2_pos m)) - 1) with (Z.succ (Zpos (digits2_pos m) - 1)) by lia.
    rewrite !Z.pow_succ_r by lia. lia.
  - rewrite Pos2Z.inj_succ. change (Zpos m~0) with (2 * Zpos m).
    replace (Z.succ (Zpos (digits2_pos m)) - 1) with (Z.succ (Zpos (digits2_pos m) - 1)) by lia.
    rewrite !Z.pow_succ_r by lia. lia.
  - cbn. lia.
Qed.

Lemma digits_unique (m : positive) (k : Z) :
  2 ^ (k - 1) <= Zpos m < 2 ^ k -> Zpos (digits2_pos m) = k.
Proof.
  intros [Hlo Hhi]. pose proof (digits_bounds m) as [Dlo Dhi].
  assert (0 < k). { destruct (Z_lt_le_dec 0 k); [assumption|]. 
    assert (2 ^ k <= 1). { destruct (Z.eq_dec k 0) as [->|]. cbn; lia. rewrite Z.pow_neg_r by lia. lia. } lia. }
  assert (Zpos (digits2_pos m) - 1 < k).
  { apply (Z.pow_lt_mono_r_iff 2); lia. }
  assert (k - 1 < Zpos (digits2_pos m)).
  { apply (Z.pow_lt_mono_r_iff 2); lia. }
  lia.
Qed.

(** One step of [shr_1] shifts by one bit, and so [iter_pos shr_1 p] shifts
    by [p] bits. *)
Lemma shr_1_shifted (x : shr_record) : 0 <= shr_m x -> shifted 1 x (shr_1 x).
Proof.
  destruct x as [m r s]. cbn [shr_m shr_r shr_s]. intros Hm. unfold shifted.
  change (2 ^ 1) with 2.
  destruct m as [|p|p]; [| |lia].
  - cbn. split; [reflexivity|]. intros _ -> ->. split; reflexivity.
  - destruct p as [p|p|]; cbn [shr_1 shr_m shr_r shr_s].
    + split. rewrite Pos2Z.inj_xI. apply (Z.div_unique _ _ _ 1); lia.
      intros H. rewrite Pos2Z.inj_xI in H. exfalso.
      rewrite Z.add_comm, Z.mul_comm, Z.mod_add in H by lia. discriminate.
    + split. change (Zpos p~0) with (2 * Zpos p). apply (Z.div_unique _ _ _ 0); lia.
      intros _ -> ->. split; reflexivity.
    + split; [reflexivity|]. intros H. discriminate.
Qed.

Lemma shifted_trans k1 k2 x y z :
  0 <= k1 -> 0 <= k2 -> shifted k1 x y -> shifted k2 y z -> shifted (k1 + k2) x z.
Proof.
  intros H1 H2 [Hxy Exy] [Hyz Eyz]. split.
  - rewrite Hyz, Hxy, Z.pow_add_r, Z.div_div by lia. reflexivity. 
  - intros Hmod Hr Hs.
    assert (P1 : 0 < 2 ^ k1) by (apply Z.pow_pos_nonneg; lia).
    assert (P2 : 0 < 2 ^ k2) by (apply Z.pow_pos_nonneg; lia).
    rewrite Z.pow_add_r in Hmod by lia.
    apply Z.mod_divide in Hmod; [|lia]. destruct Hmod as [c Hc].
    assert (M1 : shr_m x mod 2 ^ k1 = 0).
    { apply Z.mod_divide; [lia|]. exists (c * 2 ^ k2). rewrite Hc. ring. }
    destruct (Exy M1 Hr Hs) as [Ry Sy].
    apply Eyz; try assumption.
    rewrite Hxy. apply Z.mod_divide; [lia|]. exists c.
    replace (shr_m x) with (c * 2 ^ k2 * 2 ^ k1) by (rewrite Hc; ring).
    rewrite Z.div_mul by lia. reflexivity.
Qed.

Lemma shifted_nonneg k x y : 0 <= shr_m x -> 0 <= k -> shifted k x y -> 0 <= shr_m y.
Proof.
  intros Hx Hk [-> _]. apply Z.div_pos; [assumption|]. apply Z.pow_pos_nonneg; lia.
Qed.

Lemma iter_shr_shifted (p : positive) (x : shr_record) :
  0 <= shr_m x -> shifted (Zpos p) x (iter_pos shr_1 p x).
Proof.
  revert x. induction p as [p IH|p IH|]; intros x Hx; cbn [iter_pos].
  - pose proof (shr_1_shifted x Hx) as S1.
    pose proof (shifted_nonneg 1 _ _ Hx ltac:(lia) S1) as N1.
    pose proof (IH _ N1) as S2.
    pose proof (shifted_nonneg (Zpos p) _ _ N1 ltac:(lia) S2) as N2.
    pose proof (IH _ N2) as S3.
    replace (Zpos p~1) with (1 + Zpos p + Zpos p) by lia.
    eapply shifted_trans; [lia|lia| |exact S3].
    eapply shifted_trans; [lia|lia|exact S1|exact S2].
  - pose proof (IH _ Hx) as S2.
    pose proof (shifted_nonneg (Zpos p) _ _ Hx ltac:(lia) S2) as N2.
    pose proof (IH _ N2) as S3.
    replace (Zpos p~0) with (Zpos p + Zpos p) by lia.
    eapply shifted_trans; [lia|lia|exact S2|exact S3].
  - apply shr_1_shifted; assumption.
Qed.

Lemma shifted_refl x : shifted 0 x x.
Proof. split; [cbn; now rewrite Z.div_1_r|]. intros _ -> ->. split; reflexivity. Qed.

(** [shr_fexp] shifts an exact mantissa down to the canonical exponent,
    when that is above the exponent it has. *)
Lemma shr_fexp_exact (m : positive) (e : Z) :
  let n := fexp prec emax (Zpos (digits2_pos m) + e) - e in
  exists rec,
    shr_fexp prec emax (Zpos m) e loc_Exact = (rec, e + Z.max 0 n) /\
    shifted (Z.max 0 n) (Build_shr_record (Zpos m) false false) rec.
Proof.
  intros n. unfold shr_fexp, shr. cbn [Zdigits2 shr_record_of_loc].
  change (fexp prec emax (Zpos (digits2_pos m) + e) - e) with n.
  destruct n as [|p|p].
  - eexists. split; [f_equal; lia|]. apply shifted_refl.
  - eexists. split; [f_equal|]. apply iter_shr_shifted. cbn. lia.
  - eexists. split; [f_equal; lia|]. apply shifted_refl.
Qed.

Lemma round_nearest_even_bounds m l :
  m <= round_nearest_even m l <= m + 1.
Proof.
  destruct l as [|[]]; cbn; try lia. destruct (Z.even m); lia.
Qed.

Lemma pow2_pos k : 0 <= k -> 0 < 2 ^ k.
Proof. intros. apply Z.pow_pos_nonneg; lia. Qed.

(** The mantissa left by the first shift has at most 53 bits, and exactly
    53 above the subnormal range. *)
Lemma first_shift_bounds (mz : positive) (ez : Z) :
  let e0 := fexp prec emax (Zpos (digits2_pos mz) + ez) in
  -1074 <= ez -> ez <= e0 ->
  let m1 := Zpos mz / 2 ^ (e0 - ez) in
  1 <= m1 < 2 ^ 53 /\ (-1074 < e0 -> 2 ^ 52 <= m1).
Proof.
  intros e0 Hez Hle m1. subst e0 m1. rewrite fexp_eq in *.
  pose proof (digits_bounds mz) as [Dlo Dhi].
  set (d := Zpos (digits2_pos mz)) in *.
  assert (Hd : 0 < d) by (subst d; lia).
  destruct (Z.max_spec (d + ez - 53) (-1074)) as [[Hc ->]|[Hc ->]].
  - (* subnormal: nothing is shifted out *)
    replace (-1074 - ez) with 0 by lia. rewrite Z.div_1_r.
    split; [|lia]. split; [lia|].
    apply Z.lt_le_trans with (1 := Dhi). apply Z.pow_le_mono_r; lia.
  - replace (d + ez - 53 - ez) with (d - 53) by lia.
    assert (Hn : 0 <= d - 53) by lia.
    pose proof (pow2_pos _ Hn) as Hp.
    assert (E1 : 2 ^ (d - 1) = 2 ^ 52 * 2 ^ (d - 53)).
    { rewrite <- Z.pow_add_r by lia. f_equal. lia. }
    assert (E2 : 2 ^ d = 2 ^ 53 * 2 ^ (d - 53)).
    { rewrite <- Z.pow_add_r by lia. f_equal. lia. }
    assert (Lo : 2 ^ 52 <= Zpos mz / 2 ^ (d - 53)).
    { apply Z.div_le_lower_bound; [lia|]. rewrite Z.mul_comm, <- E1. exact Dlo. }
    assert (Hi : Zpos mz / 2 ^ (d - 53) < 2 ^ 53).
    { apply Z.div_lt_upper_bound; [lia|]. rewrite Z.mul_comm, <- E2. exact Dhi. }
    split; [|intros _; exact Lo]. split; [|exact Hi].
    apply Z.le_trans with (2 := Lo). cbn. lia.
Qed.

Lemma loc_of_exact_record rec :
  shr_r rec = false -> shr_s rec = false -> loc_of_shr_record rec = loc_Exact.
Proof. destruct rec as [m r s]. cbn. intros -> ->. reflexivity. Qed.

(** What [binary_round_aux] computes from an exact mantissa [mz] at an
    exponent [ez] not above the canonical one [e0]: the mantissa [mr] is
    [mz / 2^(e0 - ez)] or one more, and is that quotient when the division is
    exact; the result is [mr] at [e0], renormalised if [mr] has reached
    [2^53], or an infinity beyond the largest exponent. *)
Lemma round_aux_core (s : bool) (mz : positive) (ez : Z) :
  let e0 := fexp prec emax (Zpos (digits2_pos mz) + ez) in
  -1074 <= ez -> ez <= e0 ->
  exists mr : positive,
    let m1 := Zpos mz / 2 ^ (e0 - ez) in
    m1 <= Zpos mr <= m1 + 1 /\
    (Zpos mz mod 2 ^ (e0 - ez) = 0 -> Zpos mr = m1) /\
    binary_round_aux prec emax s (Zpos mz) ez loc_Exact =
      (if Zpos mr <? 2 ^ 53
       then if e0 <=? 971 then S754_finite s mr e0 else S754_infinity s
       else if e0 + 1 <=? 971 then S754_finite s 4503599627370496 (e0 + 1)
            else S754_infinity s) /\
    (Zpos mr < 2 ^ 53 -> canonical_mantissa prec emax mr e0 = true).
Proof.
  intros e0 Hez Hle.
  destruct (first_shift_bounds mz ez Hez Hle) as [Hm1 Hnorm]. fold e0 in Hm1, Hnorm.
  destruct (shr_fexp_exact mz ez) as (rec1 & Hshr1 & [Hsh1 Hex1]).
  cbv zeta in Hshr1, Hsh1, Hex1. fold e0 in Hshr1, Hsh1, Hex1.
  replace (Z.max 0 (e0 - ez)) with (e0 - ez) in * by lia.
  replace (ez + (e0 - ez)) with e0 in Hshr1 by lia.
  cbn [shr_m shr_r shr_s] in Hsh1, Hex1.
  set (m1 := Zpos mz / 2 ^ (e0 - ez)) in *.
  pose proof (round_nearest_even_bounds (shr_m rec1) (loc_of_shr_record rec1)) as Hr.
  destruct (round_nearest_even (shr_m rec1) (loc_of_shr_record rec1)) as [|mr|mr] eqn:Hmr;
    rewrite Hsh1 in Hr; [lia| |lia].
  exists mr. cbv zeta. fold e0 m1.
  assert (He0 : -1074 <= e0) by lia.
  split; [exact Hr|]. split.
  { intros Hmod. destruct (Hex1 Hmod eq_refl eq_refl) as [R S].
    rewrite (loc_of_exact_record _ R S) in Hmr. cbn in Hmr. congruence. }
  destruct (shr_fexp_exact mr e0) as (rec2 & Hshr2 & [Hsh2 _]).
  cbv zeta in Hshr2, Hsh2. cbn [shr_m] in Hsh2.
  unfold binary_round_aux. rewrite Hshr1, Hmr, Hshr2, Hsh2.
  pose proof (digits_bounds mr) as [Dlo Dhi].
  set (d := Zpos (digits2_pos mr)) in *.
  rewrite fexp_eq in *.
  destruct (Z.ltb_spec (Zpos mr) (2 ^ 53)) as [Hlt|Hge].
  - assert (Hd : d <= 53).
    { assert (d - 1 < 53) by (apply (Z.pow_lt_mono_r_iff 2); lia). lia. }
    replace (Z.max 0 (Z.max (d + e0 - 53) (-1074) - e0)) with 0 by lia.
    rewrite Z.div_1_r, Z.add_0_r. change (emax - prec) with 971.
    split; [reflexivity|]. intros _. unfold canonical_mantissa. fold d.
    rewrite fexp_eq. apply Z.eqb_eq.
    destruct (Z.eq_dec e0 (-1074)) as [E|E]; [lia|].
    assert (53 <= d).
    { assert (52 < d) by (apply (Z.pow_lt_mono_r_iff 2); lia). lia. }
    lia.
  - assert (E : Zpos mr = 2 ^ 53) by lia.
    assert (Emr : mr = 9007199254740992%positive) by (apply Pos2Z.inj; exact E).
    subst mr d. cbn [digits2_pos Pos.succ].
    replace (Z.max 0 (Z.max (54 + e0 - 53) (-1074) - e0)) with 1 by lia.
    replace (e0 + 1 <=? emax - prec) with (e0 + 1 <=? 971) by reflexivity.
    split; [reflexivity|]. intros H. cbn in H. lia.
Qed.

(** The mantissa and exponent of a binary64 number. *)
Lemma bounded_facts (m : positive) (e : Z) :
  bounded prec emax m e = true ->
  -1074 <= e <= 971 /\ Zpos m < 2 ^ 53 /\ (-1074 < e -> 2 ^ 52 <= Zpos m).
Proof.
  unfold bounded, canonical_mantissa. rewrite fexp_eq. change (emax - prec) with 971.
  intros H. apply andb_prop in H as [Hc He].
  apply Z.eqb_eq in Hc. apply Z.leb_le in He.
  pose proof (digits_bounds m) as [Dlo Dhi].
  set (d := Zpos (digits2_pos m)) in *.
  split; [lia|]. split.
  - apply Z.lt_le_trans with (1 := Dhi). apply Z.pow_le_mono_r; lia.
  - intros Hn. apply Z.le_trans with (2 := Dlo). apply Z.pow_le_mono_r; lia.
Qed.

Lemma pow2_split (a b : Z) : 0 <= a -> 0 <= b -> 2 ^ (a + b) = 2 ^ a * 2 ^ b.
Proof. intros. apply Z.pow_add_r; assumption. Qed.

(** Among binary64 numbers, a smaller exponent is a smaller number. *)
Lemma units_exp_lt (m1 : positive) (e1 : Z) (m2 : positive) (e2 : Z) :
  bounded prec emax m1 e1 = true -> bounded prec emax m2 e2 = true ->
  e1 < e2 -> units m1 e1 < units m2 e2.
Proof.
  intros B1 B2 Hlt.
  apply bounded_facts in B1 as (E1 & M1 & _).
  apply bounded_facts in B2 as (E2 & _ & N2). specialize (N2 ltac:(lia)).
  unfold units.
  replace (e2 + 1074) with ((e2 - e1 - 1) + 1 + (e1 + 1074)) by lia.
  rewrite (pow2_split (e2 - e1 - 1 + 1) (e1 + 1074)), (pow2_split (e2 - e1 - 1) 1) by lia.
  change (2 ^ 1) with 2.
  pose proof (pow2_pos (e1 + 1074) ltac:(lia)) as PA.
  pose proof (pow2_pos (e2 - e1 - 1) ltac:(lia)) as PB.
  change (2 ^ 53) with (2 * 2 ^ 52) in M1.
  set (A := 2 ^ (e1 + 1074)) in *. set (B := 2 ^ (e2 - e1 - 1)) in *.
  set (T := 2 ^ 52) in *. assert (0 < T) by (subst T; reflexivity).
  apply Z.lt_le_trans with (2 * T * A); [nia|].
  assert (2 * T * A <= Zpos m2 * (1 * 2) * A) by nia.
  assert (Zpos m2 * (1 * 2) * A <= Zpos m2 * (B * 2) * A) by nia.
  lia.
Qed.

(** If the exact value is not above a binary64 number, neither is the
    rounded one, which is then finite. *)
Lemma round_aux_le (s : bool) (mz : positive) (ez : Z) (mb : positive) (eb : Z) :
  -1074 <= ez ->
  ez <= fexp prec emax (Zpos (digits2_pos mz) + ez) ->
  bounded prec emax mb eb = true ->
  units mz ez <= units mb eb ->
  exists m e,
    binary_round_aux prec emax s (Zpos mz) ez loc_Exact = S754_finite s m e /\
    bounded prec emax m e = true /\
    units m e <= units mb eb.
Proof.
  intros Hez Hle Hb HK.
  set (e0 := fexp prec emax (Zpos (digits2_pos mz) + ez)) in *.
  destruct (round_aux_core s mz ez Hez Hle) as (mr & Hr & Hex & Hres & Hcan).
  cbv zeta in Hr, Hex, Hres, Hcan. fold e0 in Hr, Hex, Hres, Hcan.
  destruct (first_shift_bounds mz ez Hez Hle) as [Hm1 Hnorm]. fold e0 in Hm1, Hnorm.
  cbv zeta in Hm1, Hnorm.
  pose proof (bounded_facts _ _ Hb) as (Eb & Mb & _).
  set (P := 2 ^ (e0 - ez)) in *.
  assert (PP : 0 < P) by (apply pow2_pos; lia).
  set (A := 2 ^ (ez + 1074)).
  assert (PA : 0 < A) by (apply pow2_pos; lia).
  assert (EG : 2 ^ (e0 + 1074) = P * A).
  { subst P A. rewrite <- pow2_split by lia. f_equal. lia. }
  pose proof (Z.mul_div_le (Zpos mz) P PP) as Hfloor.
  set (m1 := Zpos mz / P) in *.
  unfold units at 1 in HK. fold A in HK.
  destruct (Z_lt_le_dec eb e0) as [Hlt|Hge].
  { (* the bound would lie below the binade of the rounded number *)
    exfalso. specialize (Hnorm ltac:(lia)). unfold units in HK.
    replace (e0 + 1074) with ((e0 - eb - 1) + 1 + (eb + 1074)) in EG by lia.
    rewrite (pow2_split (e0 - eb - 1 + 1) (eb + 1074)), (pow2_split (e0 - eb - 1) 1) in EG by lia.
    change (2 ^ 1) with 2 in EG.
    pose proof (pow2_pos (eb + 1074) ltac:(lia)) as PB.
    pose proof (pow2_pos (e0 - eb - 1) ltac:(lia)) as PC.
    set (B := 2 ^ (eb + 1074)) in *. set (C := 2 ^ (e0 - eb - 1)) in *.
    change (2 ^ 53) with (2 * 2 ^ 52) in Mb. set (T := 2 ^ 52) in *.
    assert (0 < T) by (subst T; reflexivity).
    assert (Zpos mb * B < 2 * T * B) by nia.
    assert (2 * T * B <= T * (C * 2 * B)) by nia.
    assert (T * (P * A) <= m1 * (P * A)) by nia.
    assert (m1 * (P * A) <= Zpos mz * A) by nia.
    rewrite EG in *. lia. }
  set (c := Zpos mb * 2 ^ (eb - e0)).
  assert (Ec : units mb eb = c * (P * A)).
  { unfold units, c. rewrite <- EG, <- Z.mul_assoc, <- pow2_split by lia.
    do 2 f_equal. lia. }
  assert (Hmz : Zpos mz <= c * P) by (rewrite Ec in HK; nia).
  assert (Hmr : Zpos mr <= c).
  { destruct (Z.eq_dec (Zpos mz mod P) 0) as [E|E].
    - rewrite (Hex E). apply Z.div_le_upper_bound; [lia|]. lia.
    - pose proof (Z.mod_pos_bound (Zpos mz) P PP).
      pose proof (Z.div_mod (Zpos mz) P ltac:(lia)). fold m1 in H0.
      assert (m1 < c) by nia. lia. }
  rewrite Hres.
  destruct (Z.ltb_spec (Zpos mr) (2 ^ 53)) as [Hlt|Hge53].
  - replace (e0 <=? 971) with true by (symmetry; apply Z.leb_le; lia).
    exists mr, e0. split; [reflexivity|]. split.
    + unfold bounded. rewrite (Hcan Hlt). apply Z.leb_le. change (emax - prec) with 971. lia.
    + rewrite Ec. unfold units. rewrite EG. nia.
  - assert (Hgap : 1 <= eb - e0).
    { destruct (Z.eq_dec eb e0) as [E|E]; [|lia]. exfalso.
      unfold c in Hmr. replace (eb - e0) with 0 in Hmr by lia. cbn in Hmr. lia. }
    replace (e0 + 1 <=? 971) with true by (symmetry; apply Z.leb_le; lia).
    exists 4503599627370496%positive, (e0 + 1). split; [reflexivity|]. split.
    + unfold bounded, canonical_mantissa. rewrite fexp_eq. cbn [digits2_pos Pos.succ].
      apply andb_true_intro. split; [apply Z.eqb_eq; lia|].
      apply Z.leb_le. change (emax - prec) with 971. lia.
    + rewrite Ec. unfold units.
      replace (e0 + 1 + 1074) with (1 + (e0 + 1074)) by lia.
      rewrite pow2_split, EG by lia. change (2 ^ 1) with 2.
      change (Zpos 4503599627370496) with (2 ^ 52).
      assert (2 ^ 53 <= c) by lia. change (2 ^ 53) with (2 * 2 ^ 52) in H.
      set (T := 2 ^ 52) in *. nia.
Qed.

(** If the exact value is not below a binary64 number, neither is the
    rounded one, unless it overflows. *)
Lemma round_aux_ge (s : bool) (mz : positive) (ez : Z) (mb : positive) (eb : Z) :
  -1074 <= ez ->
  ez <= fexp prec emax (Zpos (digits2_pos mz) + ez) ->
  bounded prec emax mb eb = true ->
  units mb eb <= units mz ez ->
  binary_round_aux prec emax s (Zpos mz) ez loc_Exact = S754_infinity s \/
  exists m e,
    binary_round_aux prec emax s (Zpos mz) ez loc_Exact = S754_finite s m e /\
    bounded prec emax m e = true /\
    units mb eb <= units m e.
Proof.
  intros Hez Hle Hb HK.
  set (e0 := fexp prec emax (Zpos (digits2_pos mz) + ez)) in *.
  destruct (round_aux_core s mz ez Hez Hle) as (mr & Hr & Hex & Hres & Hcan).
  cbv zeta in Hr, Hex, Hres, Hcan. fold e0 in Hr, Hex, Hres, Hcan.
  destruct (first_shift_bounds mz ez Hez Hle) as [Hm1 Hnorm]. fold e0 in Hm1, Hnorm.
  cbv zeta in Hm1, Hnorm.
  pose proof (bounded_facts _ _ Hb) as (Eb & Mb & _).
  set (P := 2 ^ (e0 - ez)) in *.
  assert (PP : 0 < P) by (apply pow2_pos; lia).
  set (A := 2 ^ (ez + 1074)).
  assert (PA : 0 < A) by (apply pow2_pos; lia).
  assert (EG : 2 ^ (e0 + 1074) = P * A).
  { subst P A. rewrite <- pow2_split by lia. f_equal. lia. }
  set (m1 := Zpos mz / P) in *.
  unfold units at 2 in HK. fold A in HK.
  (* the rounded mantissa, in units of 2^e0, is not below the bound *)
  assert (Hunits : units mb eb <= Zpos mr * (P * A)).
  { destruct (Z_lt_le_dec eb e0) as [Hlt|Hge].
    - specialize (Hnorm ltac:(lia)).
      assert (EG' := EG).
      replace (e0 + 1074) with ((e0 - eb - 1) + 1 + (eb + 1074)) in EG' by lia.
      rewrite (pow2_split (e0 - eb - 1 + 1) (eb + 1074)), (pow2_split (e0 - eb - 1) 1) in EG' by lia.
      change (2 ^ 1) with 2 in EG'.
      pose proof (pow2_pos (eb + 1074) ltac:(lia)) as PB.
      pose proof (pow2_pos (e0 - eb - 1) ltac:(lia)) as PC.
      unfold units.
      set (B := 2 ^ (eb + 1074)) in *. set (C := 2 ^ (e0 - eb - 1)) in *.
      change (2 ^ 53) with (2 * 2 ^ 52) in Mb. set (T := 2 ^ 52) in *.
      assert (0 < T) by (subst T; reflexivity).
      assert (Zpos mb * B <= 2 * T * B) by nia.
      assert (2 * T * B <= T * (C * 2 * B)) by nia.
      assert (T * (P * A) <= Zpos mr * (P * A)) by nia.
      rewrite <- EG' in *. lia.
    - set (c := Zpos mb * 2 ^ (eb - e0)).
      assert (Ec : units mb eb = c * (P * A)).
      { unfold units, c. rewrite <- EG, <- Z.mul_assoc, <- pow2_split by lia.
        do 2 f_equal. lia. }
      assert (Hc : c * P <= Zpos mz) by (rewrite Ec in HK; nia).
      assert (c <= m1).
      { apply Z.div_le_lower_bound; [lia|]. lia. }
      rewrite Ec. nia. }
  rewrite Hres.
  destruct (Z.ltb_spec (Zpos mr) (2 ^ 53)) as [Hlt|Hge53].
  - destruct (Z.leb_spec e0 971) as [Hfin|Hinf]; [right|left; reflexivity].
    exists mr, e0. split; [reflexivity|]. split.
    + unfold bounded. rewrite (Hcan Hlt). apply Z.leb_le. change (emax - prec) with 971. lia.
    + unfold units at 2. rewrite EG. exact Hunits.
  - destruct (Z.leb_spec (e0 + 1) 971) as [Hfin|Hinf]; [right|left; reflexivity].
    exists 4503599627370496%positive, (e0 + 1). split; [reflexivity|]. split.
    + unfold bounded, canonical_mantissa. rewrite fexp_eq. cbn [digits2_pos Pos.succ].
      apply andb_true_intro. split; [apply Z.eqb_eq; lia|].
      apply Z.leb_le. change (emax - prec) with 971. lia.
    + unfold units at 2.
      replace (e0 + 1 + 1074) with (1 + (e0 + 1074)) by lia.
      rewrite pow2_split, EG by lia. change (2 ^ 1) with 2.
      change (Zpos 4503599627370496) with (2 ^ 52).
      assert (E53 : Zpos mr = 2 ^ 53) by lia. rewrite E53 in Hunits.
      change (2 ^ 53) with (2 * 2 ^ 52) in Hunits. lia.
Qed.

Lemma iter_xO (m d : positive) : Zpos (Pos.iter xO m d) = Zpos m * 2 ^ Zpos d.
Proof.
  induction d as [|d IH] using Pos.peano_ind.
  - cbn. lia.
  - rewrite Pos.iter_succ, Pos2Z.inj_succ, Z.pow_succ_r by lia.
    change (Zpos (Pos.iter xO m d)~0) with (2 * Zpos (Pos.iter xO m d)).
    rewrite IH. ring.
Qed.

Lemma shl_align_spec (mx : positive) (ex ex' : Z) :
  snd (shl_align mx ex ex') = Z.min ex ex' /\
  Zpos (fst (shl_align mx ex ex')) = Zpos mx * 2 ^ (ex - Z.min ex ex').
Proof.
  unfold shl_align. destruct (ex' - ex) as [|d|d] eqn:E; cbn [fst snd].
  - replace (Z.min ex ex') with ex by lia. rewrite Z.sub_diag. cbn. lia.
  - replace (Z.min ex ex') with ex by lia. rewrite Z.sub_diag. cbn. lia.
  - replace (Z.min ex ex') with ex' by lia. split; [reflexivity|].
    rewrite iter_xO. do 2 f_equal. lia.
Qed.

(** Aligning to the canonical exponent keeps the value and prepares the
    rounding. *)
Lemma shl_align_fexp (mx : positive) (ex : Z) :
  -1074 <= ex ->
  let mz := fst (shl_align mx ex (fexp prec emax (Zpos (digits2_pos mx) + ex))) in
  let ez := snd (shl_align mx ex (fexp prec emax (Zpos (digits2_pos mx) + ex))) in
  -1074 <= ez /\
  ez <= fexp prec emax (Zpos (digits2_pos mz) + ez) /\
  units mz ez = units mx ex.
Proof.
  intros Hex mz ez.
  destruct (shl_align_spec mx ex (fexp prec emax (Zpos (digits2_pos mx) + ex)))
    as [Hez Hmz]. fold ez in Hez. fold mz in Hmz. rewrite <- Hez in Hmz.
  pose proof (digits_bounds mx) as [Dlo Dhi].
  set (d := Zpos (digits2_pos mx)) in *.
  assert (Hd : 0 < d) by (subst d; lia).
  assert (Hk : 0 <= ex - ez) by lia.
  assert (Hdz : Zpos (digits2_pos mz) = d + (ex - ez)).
  { apply digits_unique. rewrite Hmz.
    replace (d + (ex - ez) - 1) with ((d - 1) + (ex - ez)) by lia.
    rewrite !pow2_split by lia.
    pose proof (pow2_pos _ Hk). split; nia. }
  rewrite Hdz. replace (d + (ex - ez) + ez) with (d + ex) by lia.
  rewrite fexp_eq in *.
  split; [lia|]. split; [lia|].
  unfold units. rewrite Hmz, <- Z.mul_assoc, <- pow2_split by lia.
  do 2 f_equal. lia.
Qed.

Lemma binary_round_eq (s : bool) (mx : positive) (ex : Z) :
  binary_round prec emax s mx ex =
  binary_round_aux prec emax s
    (Zpos (fst (shl_align mx ex (fexp prec emax (Zpos (digits2_pos mx) + ex)))))
    (snd (shl_align mx ex (fexp prec emax (Zpos (digits2_pos mx) + ex)))) loc_Exact.
Proof.
  unfold binary_round. destruct (shl_align mx ex _) as [mz ez]. reflexivity.
Qed.

(** The same two bounds for [binary_round], which aligns first. *)
Lemma binary_round_le (s : bool) (mx : positive) (ex : Z) (mb : positive) (eb : Z) :
  -1074 <= ex -> bounded prec emax mb eb = true ->
  units mx ex <= units mb eb ->
  exists m e,
    binary_round prec emax s mx ex = S754_finite s m e /\
    bounded prec emax m e = true /\
    units m e <= units mb eb.
Proof.
  intros Hex Hb HK. rewrite binary_round_eq.
  destruct (shl_align_fexp mx ex Hex) as (H1 & H2 & H3). cbv zeta in H1, H2, H3.
  apply round_aux_le; try assumption. now rewrite H3.
Qed.

Lemma binary_round_ge (s : bool) (mx : positive) (ex : Z) (mb : positive) (eb : Z) :
  -1074 <= ex -> bounded prec emax mb eb = true ->
  units mb eb <= units mx ex ->
  binary_round prec emax s mx ex = S754_infinity s \/
  exists m e,
    binary_round prec emax s mx ex = S754_finite s m e /\
    bounded prec emax m e = true /\
    units mb eb <= units m e.
Proof.
  intros Hex Hb HK. rewrite binary_round_eq.
  destruct (shl_align_fexp mx ex Hex) as (H1 & H2 & H3). cbv zeta in H1, H2, H3.
  apply round_aux_ge; try assumption. now rewrite H3.
Qed.

(** A rounded non-zero value is finite or infinite, with its sign. *)
Lemma binary_round_shape (s : bool) (mx : positive) (ex : Z) :
  -1074 <= ex ->
  binary_round prec emax s mx ex = S754_infinity s \/
  exists m e, binary_round prec emax s mx ex = S754_finite s m e.
Proof.
  intros Hex. rewrite binary_round_eq.
  destruct (shl_align_fexp mx ex Hex) as (H1 & H2 & _). cbv zeta in H1, H2.
  destruct (round_aux_core s _ _ H1 H2) as (mr & _ & _ & -> & _).
  repeat match goal with |- context [if ?c then _ else _] => destruct c end; eauto.
Qed.

Lemma units_mantissa_le (m1 m2 : positive) (e : Z) :
  -1074 <= e -> units m1 e <= units m2 e -> (m1 <= m2)%positive.
Proof.
  unfold units. intros He H. pose proof (pow2_pos (e + 1074) ltac:(lia)).
  apply Pos2Z.pos_le_pos. nia.
Qed.

(** On numbers of one sign, [SFleb] is the order of the values. *)
Lemma SFleb_pos (m1 : positive) (e1 : Z) (m2 : positive) (e2 : Z) :
  bounded prec emax m1 e1 = true -> bounded prec emax m2 e2 = true ->
  units m1 e1 <= units m2 e2 ->
  SFleb (S754_finite false m1 e1) (S754_finite false m2 e2) = true.
Proof.
  intros B1 B2 H. unfold SFleb, SFcompare.
  destruct (Z.compare_spec e1 e2) as [E|E|E].
  - subst e2. apply units_mantissa_le in H; [|apply bounded_facts in B1; lia].
    change (Pos.compare_cont Eq m1 m2) with (m1 ?= m2)%positive.
    destruct (Pos.compare_spec m1 m2); try reflexivity. lia.
  - reflexivity.
  - pose proof (units_exp_lt _ _ _ _ B2 B1 E). lia.
Qed.

Lemma SFleb_neg (m1 : positive) (e1 : Z) (m2 : positive) (e2 : Z) :
  bounded prec emax m1 e1 = true -> bounded prec emax m2 e2 = true ->
  units m2 e2 <= units m1 e1 ->
  SFleb (S754_finite true m1 e1) (S754_finite true m2 e2) = true.
Proof.
  intros B1 B2 H. unfold SFleb, SFcompare.
  destruct (Z.compare_spec e1 e2) as [E|E|E].
  - subst e2. apply units_mantissa_le in H; [|apply bounded_facts in B1; lia].
    change (Pos.compare_cont Eq m1 m2) with (m1 ?= m2)%positive.
    destruct (Pos.compare_spec m1 m2); try reflexivity. lia.
  - pose proof (units_exp_lt _ _ _ _ B1 B2 E). lia.
  - reflexivity.
Qed.

Lemma SFleb_refl_finite (s : bool) (m : positive) (e : Z) :
  bounded prec emax m e = true ->
  SFleb (S754_finite s m e) (S754_finite s m e) = true.
Proof.
  intros B. destruct s; [apply SFleb_neg|apply SFleb_pos]; auto; lia.
Qed.

(** Subtracting a positive finite number from a finite one. *)
Lemma SFsub_finite_le (sb : bool) (mb : positive) (eb : Z) (mp : positive) (ep : Z) :
  bounded prec emax mb eb = true -> bounded prec emax mp ep = true ->
  SFleb (SFsub prec emax (S754_finite sb mb eb) (S754_finite false mp ep))
        (S754_finite sb mb eb) = true.
Proof.
  intros Bb Bp. cbn [SFsub].
  pose proof (bounded_facts _ _ Bb) as (Eb & _ & _).
  pose proof (bounded_facts _ _ Bp) as (Ep & _ & _).
  set (ez := Z.min eb ep).
  assert (Hez : -1074 <= ez) by (subst ez; lia).
  destruct (shl_align_spec mb eb ez) as [_ Hb].
  destruct (shl_align_spec mp ep ez) as [_ Hp].
  replace (Z.min eb ez) with ez in Hb by (subst ez; lia).
  replace (Z.min ep ez) with ez in Hp by (subst ez; lia).
  set (Mb := fst (shl_align mb eb ez)) in *.
  set (Mp := fst (shl_align mp ep ez)) in *.
  assert (Ub : units Mb ez = units mb eb).
  { unfold units. rewrite Hb, <- Z.mul_assoc, <- pow2_split by (subst ez; lia).
    do 2 f_equal. lia. }
  pose proof (pow2_pos (ez + 1074) ltac:(lia)) as PA.
  unfold binary_normalize. cbn [cond_Zopp].
  destruct sb; cbn [cond_Zopp].
  - (* a negative number moves further from zero *)
    change (- Zpos Mb - Zpos Mp) with (Zneg (Mb + Mp)).
    destruct (binary_round_ge true (Mb + Mp) ez mb eb Hez Bb) as [->|(m & e & -> & Bm & Hm)].
    + rewrite <- Ub. unfold units. rewrite Pos2Z.inj_add. nia.
    + reflexivity.
    + apply SFleb_neg; assumption.
  - destruct (Zpos Mb - Zpos Mp) as [|d|d] eqn:D.
    + reflexivity.
    + destruct (binary_round_le false d ez mb eb Hez Bb) as (m & e & -> & Bm & Hm).
      * rewrite <- Ub. unfold units. nia.
      * apply SFleb_pos; assumption.
    + destruct (binary_round_shape true d ez Hez) as [->|(m & e & ->)]; reflexivity.
Qed.

Lemma SFleb_zero_sign (s : bool) (m : positive) (e : Z) :
  SFleb (S754_zero false) (S754_finite s m e) = true -> s = false.
Proof. destruct s; [discriminate|reflexivity]. Qed.

(** Subtracting a number that is not negative does not increase. *)
Lemma SFsub_nonneg_le (x p : spec_float) :
  valid_binary x = true -> valid_binary p = true ->
  SFleb (S754_zero false) p = true ->
  SFsub prec emax x p <> S754_nan ->
  SFleb (SFsub prec emax x p) x = true.
Proof.
  intros Vx Vp Hp Hnan.
  destruct p as [sp|sp| |sp mp ep]; try discriminate.
  - (* zero *)
    destruct x as [sx|sx| |sx mx ex]; try (exfalso; apply Hnan; reflexivity).
    + destruct sx, sp; reflexivity.
    + destruct sx; reflexivity.
    + cbn [SFsub]. apply SFleb_refl_finite. exact Vx.
  - (* infinity, which is positive *)
    destruct sp; [discriminate|].
    destruct x as [sx|sx| |sx mx ex]; try (exfalso; apply Hnan; reflexivity).
    + reflexivity.
    + destruct sx; [reflexivity|exfalso; apply Hnan; reflexivity].
    + destruct sx; reflexivity.
  - apply SFleb_zero_sign in Hp. subst sp.
    destruct x as [sx|sx| |sx mx ex]; try (exfalso; apply Hnan; reflexivity).
    + reflexivity.
    + destruct sx; reflexivity.
    + apply SFsub_finite_le; assumption.
Qed.

(** The same on primitive floats, where a NaN is never [<=] anything. *)
Lemma leb_is_number (x y : float) :
  (x <=? y)%float = true -> is_number x /\ is_number y.
Proof.
  rewrite leb_spec. unfold is_number.
  destruct (Prim2SF x), (Prim2SF y); cbn; intros H; split; congruence.
Qed.

Lemma sub_is_number (b p : float) : is_number (b - p)%float -> is_number b.
Proof.
  unfold is_number. rewrite sub_spec. intros H E. apply H. rewrite E. reflexivity.
Qed.

Lemma sub_nonneg_le_number (b p : float) :
  (0 <=? p)%float = true -> is_number (b - p)%float -> (b - p <=? b)%float = true.
Proof.
  intros Hp Hn. unfold is_number in Hn.
  rewrite leb_spec in *. rewrite sub_spec in *.
  apply SFsub_nonneg_le; auto using Prim2SF_valid.
Qed.

(** The floats that compare equal to zero are [0.0] and [-0.0]. *)
Lemma float_eqb_zero (x : float) :
  (x =? 0)%float = true -> x = zero \/ x = neg_zero.
Proof.
  rewrite eqb_spec. change (Prim2SF 0) with (S754_zero false).
  intros H. rewrite <- (SF2Prim_Prim2SF x).
  destruct (Prim2SF x) as [s|s| |s m e]; try discriminate;
    destruct s; try discriminate; [right|left]; reflexivity.
Qed.

Lemma SFadd_comm (x y : spec_float) : SFadd prec emax x y = SFadd prec emax y x.
Proof.
  destruct x as [sx|sx| |sx mx ex], y as [sy|sy| |sy my ey];
    try reflexivity; try (destruct sx, sy; reflexivity).
  cbn [SFadd]. rewrite Z.min_comm. f_equal. apply Z.add_comm.
Qed.

(** Float addition is commutative. *)
Lemma float_add_comm (x y : float) : (x + y)%float = (y + x)%float.
Proof.
  apply Prim2SF_inj. rewrite !add_spec. apply SFadd_comm.
Qed.

(** * Balances along a schedule *)

Lemma last_cons {A : Type} (x : A) (l : list A) (d : A) : last (x :: l) d = last l x.
Proof.
  revert x d. induction l as [|y l IH]; intros x d; [reflexivity|].
  change (last (y :: l) d = last (y :: l) x). rewrite !IH. reflexivity.
Qed.

Lemma non_increasing_snoc (a x : float) (l : list float) :
  non_increasing (a :: l) -> (x <=? last l a)%float = true ->
  non_increasing (a :: l ++ [x]).
Proof.
  revert a. induction l as [|b l IH]; intros a H Hx.
  - cbn in *. auto.
  - destruct H as [Hba Hrest]. split; [exact Hba|].
    apply IH; [exact Hrest|]. now rewrite last_cons in Hx.
Qed.

(** Along loop rows with non-negative principal components, the balance
    does not increase, provided the last balance is a number. *)
Lemma follows_non_increasing a adj b body :
  follows a adj b body ->
  Forall (fun r => (0 <=? principal_component r)%float = true) body ->
  is_number (last (map remaining_balance body) b) ->
  non_increasing (b :: map remaining_balance body) /\ is_number b.
Proof.
  revert b. induction body as [|r body IH]; intros b Hf Hpos Hn.
  - split; [exact I|exact Hn].
  - destruct Hf as (_ & _ & _ & Hb & Hrest). inversion Hpos as [|? ? Hr Hbody]; subst.
    cbn [map] in Hn. rewrite last_cons in Hn.
    destruct (IH _ Hrest Hbody Hn) as [Hmono Hnum].
    rewrite Hb in Hnum.
    split; [|exact (sub_is_number _ _ Hnum)].
    cbn [map]. split; [|exact Hmono].
    rewrite Hb. apply sub_nonneg_le_number; assumption.
Qed.

(** * The engine *)

(** ** The shape of a schedule *)

Lemma truediv_int_value (a : float) (f : PaymentFrequency) :
  PyFloat.truediv_int a (value f) = Ok (per_period_rate a f).
Proof. destruct f; vm_compute; reflexivity. Qed.

Lemma numbers_from_S (k : Z) (n : nat) :
  numbers_from k (S n) = k :: numbers_from (k + 1) n.
Proof.
  unfold numbers_from. simpl. rewrite Z.add_0_r. f_equal.
  rewrite <- seq_shift, map_map. apply map_ext. intros i. lia.
Qed.

Lemma numbers_from_snoc (k : Z) (n : nat) :
  numbers_from k (S n) = numbers_from k n ++ [k + Z.of_nat n].
Proof.
  unfold numbers_from. rewrite seq_S, map_app. reflexivity.
Qed.

Section EngineFacts.
Variable libm_pow : float -> float -> float.

Local Abbreviation calc := (calculate_amortization_amount libm_pow).
Local Abbreviation schedule := (amortization_schedule libm_pow).

Lemma schedule_loop_length a adj n k b :
  length (fst (schedule_loop a adj n k b)) = n.
Proof.
  revert k b. induction n as [|n IH]; intros k b; simpl; [reflexivity|].
  specialize (IH (k + 1) (b - (a - PyFloat.round (b * adj) 2))%float).
  destruct (schedule_loop a adj n _ _) as [rows final]. simpl in *. now rewrite IH.
Qed.

Lemma schedule_loop_periods a adj n k b :
  map period (fst (schedule_loop a adj n k b)) = numbers_from k n.
Proof.
  revert k b. induction n as [|n IH]; intros k b; [reflexivity|].
  rewrite numbers_from_S. simpl.
  specialize (IH (k + 1) (b - (a - PyFloat.round (b * adj) 2))%float).
  destruct (schedule_loop a adj n _ _) as [rows final]. simpl in *. now rewrite IH.
Qed.

Lemma schedule_loop_follows a adj n k b :
  follows a adj b (fst (schedule_loop a adj n k b)).
Proof.
  revert k b. induction n as [|n IH]; intros k b; simpl; [exact I|].
  specialize (IH (k + 1) (b - (a - PyFloat.round (b * adj) 2))%float).
  destruct (schedule_loop a adj n _ _) as [rows final]. simpl in *. auto.
Qed.

Lemma schedule_loop_final a adj n k b :
  snd (schedule_loop a adj n k b)
  = last (map remaining_balance (fst (schedule_loop a adj n k b))) b.
Proof.
  revert k b. induction n as [|n IH]; intros k b; simpl; [reflexivity|].
  specialize (IH (k + 1) (b - (a - PyFloat.round (b * adj) 2))%float).
  destruct (schedule_loop a adj n _ _) as [rows final]. simpl in *.
  rewrite IH. destruct rows as [|r rows]; [reflexivity|].
  change (last (remaining_balance r :: map remaining_balance rows)
            (b - (a - PyFloat.round (b * adj) 2))%float
          = last (remaining_balance r :: map remaining_balance rows) b).
  now rewrite !last_cons.
Qed.

(** The generator raises exactly what the payment calculator raises, and
    otherwise yields the loop's rows followed by the closing row. *)
Lemma amortization_schedule_eq principal interest_rate period f :
  schedule principal interest_rate period f =
  (a <- calc principal interest_rate period f ;;
   let adj := per_period_rate interest_rate f in
   let run := schedule_loop a adj (Z.to_nat (period - 1)) 1 principal in
   Ok (fst run ++ [closing_row period adj (snd run)])).
Proof.
  unfold amortization_schedule.
  destruct (calc principal interest_rate period f) as [a|e]; simpl; [|reflexivity].
  rewrite truediv_int_value. simpl.
  destruct (schedule_loop a _ _ _ _) as [rows final]. reflexivity.
Qed.

Lemma amortization_schedule_returns principal interest_rate period f a :
  calc principal interest_rate period f = Ok a ->
  exists rows, schedule principal interest_rate period f = Ok rows.
Proof.
  intros Ha. rewrite amortization_schedule_eq, Ha. simpl. eauto.
Qed.

Lemma amortization_schedule_raises principal interest_rate period f e :
  calc principal interest_rate period f = Raise e ->
  schedule principal interest_rate period f = Raise e.
Proof.
  intros He. rewrite amortization_schedule_eq, He. reflexivity.
Qed.

(** Every schedule that is yielded: the loop rows, then the closing row. *)
Lemma amortization_schedule_shape principal interest_rate periods f rows :
  schedule principal interest_rate periods f = Ok rows ->
  exists a body,
    calc principal interest_rate periods f = Ok a /\
    rows = body
           ++ [closing_row periods (per_period_rate interest_rate f)
                 (last (map remaining_balance body) principal)] /\
    length body = Z.to_nat (periods - 1) /\
    map period body = numbers_from 1 (Z.to_nat (periods - 1)) /\
    follows a (per_period_rate interest_rate f) principal body.
Proof.
  rewrite amortization_schedule_eq.
  destruct (calc principal interest_rate periods f) as [a|e]; simpl; [|discriminate].
  intros H. injection H as <-.
  exists a, (fst (schedule_loop a (per_period_rate interest_rate f)
                   (Z.to_nat (periods - 1)) 1 principal)).
  rewrite <- schedule_loop_final.
  repeat split; auto using schedule_loop_length, schedule_loop_periods,
    schedule_loop_follows.
Qed.

End EngineFacts.

Lemma follows_Forall a adj b rows :
  follows a adj b rows ->
  Forall (fun r => payment_amount r = a /\
                   principal_component r = (payment_amount r - interest_component r)%float)
         rows.
Proof.
  revert b. induction rows as [|r rows IH]; intros b H; [constructor|].
  destruct H as (Hp & _ & Hc & _ & Hrest). constructor; [|eauto].
  split; [assumption|]. now rewrite Hp.
Qed.

(** The C library enters a schedule through the fixed payment only. *)
Lemma schedule_depends_on_payment (libm libm' : float -> float -> float)
    principal interest_rate period f :
  calculate_amortization_amount libm principal interest_rate period f
  = calculate_amortization_amount libm' principal interest_rate period f ->
  amortization_schedule libm principal interest_rate period f
  = amortization_schedule libm' principal interest_rate period f.
Proof. intros H. rewrite !amortization_schedule_eq, H. reflexivity. Qed.

(** Away from its special cases, [**] is the C library's [pow], with an
    infinite result reported as [OverflowError]. *)
Lemma pow_regular (libm_pow : float -> float -> float) (iv : float) (n : Z) (iw : float) :
  PyFloat.of_int n = Ok iw ->
  (iw =? 0)%float = false ->
  is_nan iv = false ->
  is_infinity iv = false ->
  (iv =? 0)%float = false ->
  (iv <? 0)%float = false ->
  (iv =? 1)%float = false ->
  PyFloat.pow libm_pow iv n =
  if is_infinity (libm_pow iv iw) then Raise OverflowError else Ok (libm_pow iv iw).
Proof.
  intros Hn H0 Hnan Hinf Hz Hneg H1. unfold PyFloat.pow.
  rewrite Hn. cbn [bind]. rewrite H0, Hnan, Hinf, Hz, Hneg. cbn [andb]. rewrite H1.
  reflexivity.
Qed.

(** The payment calculation returns exactly when the growth factor can be
    computed and differs from [1.0]. *)
Lemma calculate_amortization_amount_eq (libm_pow : float -> float -> float)
    principal interest_rate period f :
  calculate_amortization_amount libm_pow principal interest_rate period f =
  let adj := per_period_rate interest_rate f in
  (x <- PyFloat.pow libm_pow (1 + adj)%float period ;;
   if (x - 1 =? 0)%float then Raise ZeroDivisionError
   else Ok (PyFloat.round (principal * (adj * x) / (x - 1))%float 2)).
Proof.
  unfold calculate_amortization_amount. rewrite truediv_int_value. cbn [bind].
  destruct (PyFloat.pow _ _ _) as [x|e]; [|reflexivity].
  cbn [bind]. unfold PyFloat.truediv. destruct (x - 1 =? 0)%float; reflexivity.
Qed.

(** ** The payment calculator at the degenerate inputs *)

Section CalculatorFacts.
Variable libm_pow : float -> float -> float.

Local Abbreviation calc := (calculate_amortization_amount libm_pow).

(** Whatever is raised to the power [0] is [1.0], so the formula divides
    by [1.0 - 1]. *)
Lemma calc_zero_periods principal interest_rate f :
  calc principal interest_rate 0 f = Raise ZeroDivisionError.
Proof.
  unfold calculate_amortization_amount. rewrite truediv_int_value.
  reflexivity.
Qed.

End CalculatorFacts.

(** ** The schedule generator *)

Section ScheduleClaims.
Variable libm_pow : float -> float -> float.

(** C2.  A schedule is yielded whenever the payment calculation returns,
    and the last row of every schedule that is yielded closes the loan: its
    remaining balance is exactly [0], its principal component is the balance
    left by the rows before it (the principal itself when there is none),
    its interest is the rounded interest on that balance, and its payment is
    that balance plus that interest. *)
Theorem final_row_closes_balance principal interest_rate period f :
  (forall a,
     calculate_amortization_amount libm_pow principal interest_rate period f = Ok a ->
     exists rows,
       amortization_schedule libm_pow principal interest_rate period f = Ok rows) /\
  (forall rows,
     amortization_schedule libm_pow principal interest_rate period f = Ok rows ->
     exists body final,
       rows = body ++ [final] /\
       length body = Z.to_nat (period - 1) /\
       let balance := last (map remaining_balance body) principal in
       let interest :=
         PyFloat.round (balance * per_period_rate interest_rate f)%float 2 in
       remaining_balance final = 0%float /\
       principal_component final = balance /\
       interest_component final = interest /\
       payment_amount final = (balance + interest)%float).
Proof.
  split; [intros a; apply amortization_schedule_returns|].
  intros rows H. apply amortization_schedule_shape in H.
  destruct H as (a & body & _ & -> & Hlen & _ & _).
  eexists body, _. split; [reflexivity|]. split; [assumption|].
  cbn. repeat split.
Qed.

(** C3, amended.  For [periods > 0] the generator raises what the payment
    calculation raises, before any row; whenever the payment calculation
    returns, it yields exactly [periods] rows, numbered [1, 2, ..., periods]
    in this order. *)
Theorem schedule_has_period_rows principal interest_rate periods f :
  0 < periods ->
  (forall e,
     calculate_amortization_amount libm_pow principal interest_rate periods f = Raise e ->
     amortization_schedule libm_pow principal interest_rate periods f = Raise e) /\
  (forall a,
     calculate_amortization_amount libm_pow principal interest_rate periods f = Ok a ->
     exists rows,
       amortization_schedule libm_pow principal interest_rate periods f = Ok rows /\
       length rows = Z.to_nat periods /\
       map period rows = numbers_from 1 (Z.to_nat periods)).
Proof.
  intros Hpos. split; [intros e; apply amortization_schedule_raises|].
  intros a Ha.
  destruct (amortization_schedule_returns _ _ _ _ _ _ Ha) as [rows Hrows].
  exists rows. split; [assumption|].
  apply amortization_schedule_shape in Hrows.
  destruct Hrows as (_ & body & _ & -> & Hlen & Hnum & _).
  replace (Z.to_nat periods) with (S (Z.to_nat (periods - 1))) by lia.
  split.
  - rewrite length_app, Hlen. simpl. lia.
  - rewrite map_app, Hnum, numbers_from_snoc. cbn [map closing_row period].
    rewrite Z2Nat.id by lia. now replace (1 + (periods - 1)) with periods by lia.
Qed.

(** C7, amended.  For one period the generator raises what the payment
    calculation raises; whenever the payment calculation returns, the
    schedule is the single closing row: it carries the whole principal as
    its principal component, the rounded interest on the principal, and the
    balance [0]. *)
Theorem single_period_schedule principal interest_rate f :
  (forall e,
     calculate_amortization_amount libm_pow principal interest_rate 1 f = Raise e ->
     amortization_schedule libm_pow principal interest_rate 1 f = Raise e) /\
  (forall a,
     calculate_amortization_amount libm_pow principal interest_rate 1 f = Ok a ->
     amortization_schedule libm_pow principal interest_rate 1 f =
     Ok [ {| period := 1;
             payment_amount :=
               (principal
                + PyFloat.round (principal * per_period_rate interest_rate f) 2)%float;
             interest_component :=
               PyFloat.round (principal * per_period_rate interest_rate f)%float 2;
             principal_component := principal;
             remaining_balance := 0%float |} ]).
Proof.
  split; [intros e; apply amortization_schedule_raises|].
  intros a Ha. rewrite amortization_schedule_eq, Ha. reflexivity.
Qed.

(** C10, amended.  In every schedule that is yielded, the payment of the
    last row is exactly the float sum of its interest and its principal
    component; each row before the last has, as its principal component, the
    float difference of its payment and its interest. *)
Theorem payment_splits_into_components principal interest_rate period f rows :
  amortization_schedule libm_pow principal interest_rate period f = Ok rows ->
  exists body final,
    rows = body ++ [final] /\
    payment_amount final
    = (interest_component final + principal_component final)%float /\
    Forall (fun r => principal_component r
                     = (payment_amount r - interest_component r)%float) body.
Proof.
  intros H. apply amortization_schedule_shape in H.
  destruct H as (a & body & _ & -> & _ & _ & Hf).
  eexists body, _. split; [reflexivity|]. split; [apply float_add_comm|].
  apply follows_Forall in Hf. revert Hf. apply Forall_impl. intros r [_ Hr]. exact Hr.
Qed.

(** C6, amended.  In every schedule that is yielded and in which no row
    has a negative principal component, the remaining balance never
    increases: not from the principal to the first row, and not from any row
    to the next, down to the [0] of the last row. *)
Theorem balance_non_increasing principal interest_rate period f rows :
  amortization_schedule libm_pow principal interest_rate period f = Ok rows ->
  Forall (fun r => (0 <=? principal_component r)%float = true) rows ->
  non_increasing (principal :: map remaining_balance rows).
Proof.
  intros H Hpos. apply amortization_schedule_shape in H.
  destruct H as (a & body & _ & -> & _ & _ & Hf).
  apply Forall_app in Hpos as [Hbody Hfinal].
  inversion Hfinal as [|? ? Hlast _]; subst.
  cbn [closing_row principal_component] in Hlast.
  rewrite map_app. cbn [map closing_row remaining_balance].
  apply non_increasing_snoc; [|exact Hlast].
  apply (follows_non_increasing a (per_period_rate interest_rate f)); try assumption.
  apply (leb_is_number _ _ Hlast).
Qed.

(** C4, amended.  At an annual rate that is zero ([0.0], [-0.0], or the
    int [0] that becomes [0.0]) the payment calculator raises for every
    principal, period and frequency: [ZeroDivisionError], unless the period
    is too large an int to be a float, which is an [OverflowError]. *)
Theorem zero_rate_raises principal interest_rate period f :
  (interest_rate =? 0)%float = true ->
  calculate_amortization_amount libm_pow principal interest_rate period f =
  Raise match PyFloat.of_int period with
        | Ok _ => ZeroDivisionError
        | Raise e => e
        end.
Proof.
  intros Hzero. unfold calculate_amortization_amount. rewrite truediv_int_value.
  assert (Hadj : (1 + per_period_rate interest_rate f)%float = 1%float).
  { destruct (float_eqb_zero _ Hzero) as [-> | ->];
      destruct f; vm_compute; reflexivity. }
  cbn [bind]. rewrite Hadj. unfold PyFloat.pow.
  destruct (PyFloat.of_int period) as [iw|e]; [|reflexivity].
  cbn [bind]. destruct (iw =? 0)%float; reflexivity.
Qed.

(** C5, amended.  The engine does not check the number of periods.  For
    [period = 0] every call raises [ZeroDivisionError] from the payment
    formula.  For [period < 0] the generator raises what the payment formula
    raises, and whenever the payment formula returns it yields one row,
    numbered [period], which closes the whole principal at once. *)
Theorem non_positive_period_unchecked principal interest_rate f :
  amortization_schedule libm_pow principal interest_rate 0 f = Raise ZeroDivisionError /\
  forall period,
    period < 0 ->
    (forall e,
       calculate_amortization_amount libm_pow principal interest_rate period f = Raise e ->
       amortization_schedule libm_pow principal interest_rate period f = Raise e) /\
    (forall a,
       calculate_amortization_amount libm_pow principal interest_rate period f = Ok a ->
       amortization_schedule libm_pow principal interest_rate period f
       = Ok [closing_row period (per_period_rate interest_rate f) principal]).
Proof.
  split.
  - apply amortization_schedule_raises, calc_zero_periods.
  - intros period Hneg. split; [intros e; apply amortization_schedule_raises|].
    intros a Ha. rewrite amortization_schedule_eq, Ha.
    replace (Z.to_nat (period - 1)) with 0%nat by lia. reflexivity.
Qed.

End ScheduleClaims.

(** ** The loan summary *)

Lemma percent_to_fraction (x : float) :
  PyFloat.truediv_int x 100 = Ok (x / 100)%float.
Proof. vm_compute. reflexivity. Qed.

Lemma slice_to_all {A : Type} (l : list A) (stop : Z) :
  Z.of_nat (length l) <= stop -> slice_to l stop = l.
Proof.
  intros H. unfold slice_to.
  destruct (0 <=? stop) eqn:E; [|lia].
  apply firstn_all2. lia.
Qed.

Section SummaryClaims.
Variable libm_pow : float -> float -> float.

(** C8, amended.  For a stored loan over [loan_term_months >= 0] periods,
    the summary asked for any month beyond the term is the summary at the
    term: the slice is clipped to the rows there are.  Whenever the payment
    calculation returns, this outcome is a summary, not an exception.  (For
    a negative term the slice counts back from the end, and the two
    differ.) *)
Theorem summary_capped_at_term db loan_id loan month :
  query_first db loan_id = Some loan ->
  0 <= loan_term_months loan ->
  loan_term_months loan < month ->
  get_loan_summary libm_pow loan_id month db
  = get_loan_summary libm_pow loan_id (loan_term_months loan) db /\
  forall a,
    calculate_amortization_amount libm_pow (amount loan) (annual_interest_rate loan / 100)%float
         (loan_term_months loan) (frequency loan) = Ok a ->
    exists s, get_loan_summary libm_pow loan_id month db = Ok s.
Proof.
  intros Hq Hpos Hm. unfold get_loan_summary. rewrite Hq, percent_to_fraction.
  cbn [bind]. split.
  - destruct (amortization_schedule _ _ _ _ _) as [rows|e] eqn:Hrows; [|reflexivity].
    cbn [bind]. apply amortization_schedule_shape in Hrows.
    destruct Hrows as (a & body & Ha & -> & Hlen & _ & _).
    assert (Hterm : loan_term_months loan <> 0).
    { intros E. rewrite E, calc_zero_periods in Ha. discriminate. }
    rewrite !slice_to_all; [reflexivity| |]; rewrite length_app, Hlen; simpl; lia.
  - intros a Ha. destruct (amortization_schedule_returns _ _ _ _ _ _ Ha) as [rows ->].
    cbn [bind]. destruct (fold_left _ _ _) as [[c p] i]. eauto.
Qed.

(** C9, amended.  For a stored loan, the summary at month [0] raises what
    the schedule raises; whenever the schedule is yielded, it folds over no
    row: the principal and the interest paid are [0], and the current balance
    is the [0] it was initialised with. *)
Theorem summary_at_month_zero db loan_id loan :
  query_first db loan_id = Some loan ->
  (forall e,
     amortization_schedule libm_pow (amount loan) (annual_interest_rate loan / 100)%float
       (loan_term_months loan) (frequency loan) = Raise e ->
     get_loan_summary libm_pow loan_id 0 db = Raise e) /\
  (forall rows,
     amortization_schedule libm_pow (amount loan) (annual_interest_rate loan / 100)%float
       (loan_term_months loan) (frequency loan) = Ok rows ->
     get_loan_summary libm_pow loan_id 0 db
     = Ok {| current_principal_balance := 0%float;
             aggregate_principal_paid := 0%float;
             aggregate_interest_paid := 0%float |}).
Proof.
  intros Hq. unfold get_loan_summary.
  rewrite Hq, percent_to_fraction. cbn [bind].
  split; [intros e ->|intros rows ->]; reflexivity.
Qed.

End SummaryClaims.

(** ** The reference payments *)

(** The two documented payments do not depend on the last bit of the C
    library's [pow]: any result within one unit in the last place of the
    exact power gives them. *)
Lemma reference_payments_within_one_ulp (libm_pow : float -> float -> float) :
  PyFloat.one_ulp_at libm_pow (1 + 0.1 / 12)%float 36%float ->
  PyFloat.one_ulp_at libm_pow (1 + 0.1 / 24)%float 36%float ->
  calculate_amortization_amount libm_pow 150000 0.1 36 MONTHLY = Ok 4840.08%float /\
  calculate_amortization_amount libm_pow 150000 0.1 36 SEMIMONTHLY = Ok 4495.63%float.
Proof.
  intros H12 H24. unfold PyFloat.one_ulp_at in H12, H24.
  unfold calculate_amortization_amount. rewrite !truediv_int_value. cbn [bind].
  replace (1 + per_period_rate 0.1 MONTHLY)%float with (1 + 0.1 / 12)%float
    by (vm_compute; reflexivity).
  replace (1 + per_period_rate 0.1 SEMIMONTHLY)%float with (1 + 0.1 / 24)%float
    by (vm_compute; reflexivity).
  rewrite !(pow_regular libm_pow _ 36 36%float) by (vm_compute; reflexivity).
  split.
  - destruct H12 as [-> | [-> | ->]]; vm_compute; reflexivity.
  - destruct H24 as [-> | [-> | ->]]; vm_compute; reflexivity.
Qed.

(** C1.  The payment on 150000 at 10% over 36 periods is 4840.08 monthly
    and 4495.63 semimonthly. *)
Theorem reference_payments :
  calc_exact 150000 0.1 36 MONTHLY = Ok 4840.08%float /\
  calc_exact 150000 0.1 36 SEMIMONTHLY = Ok 4495.63%float.
Proof.
  apply (reference_payments_within_one_ulp PyFloat.libm_pow_exact); left; reflexivity.
Qed.

(** ** The loans of the counterexamples

    Their schedules do not depend on the last bit of the C library's [pow]
    either. *)

Ltac same_payment H base iw :=
  apply schedule_depends_on_payment;
  unfold PyFloat.one_ulp_at in H;
  unfold calculate_amortization_amount; rewrite !truediv_int_value; cbn [bind];
  match goal with
  | |- context [PyFloat.pow _ ?b ?n] =>
      replace b with base by (vm_compute; reflexivity);
      rewrite !(pow_regular _ base n iw) by (vm_compute; reflexivity)
  end;
  destruct H as [-> | [-> | ->]]; vm_compute; reflexivity.

Lemma overpaid_loan_within_one_ulp (libm_pow : float -> float -> float) :
  PyFloat.one_ulp_at libm_pow (1 + 0.1 / 12)%float 12%float ->
  amortization_schedule libm_pow 0.06 0.1 12 MONTHLY = schedule_exact 0.06 0.1 12 MONTHLY.
Proof. intros H. same_payment H (1 + 0.1 / 12)%float 12%float. Qed.

Lemma two_year_loan_within_one_ulp (libm_pow : float -> float -> float) :
  PyFloat.one_ulp_at libm_pow (1 + 0.06 / 12)%float 24%float ->
  amortization_schedule libm_pow 1000 0.06 24 MONTHLY = schedule_exact 1000 0.06 24 MONTHLY.
Proof. intros H. same_payment H (1 + 0.06 / 12)%float 24%float. Qed.

Lemma negative_period_within_one_ulp (libm_pow : float -> float -> float) :
  PyFloat.one_ulp_at libm_pow (1 + 5 / 100 / 12)%float (-3)%float ->
  amortization_schedule libm_pow 1000 (5 / 100) (-3) MONTHLY
  = schedule_exact 1000 (5 / 100) (-3) MONTHLY.
Proof. intros H. same_payment H (1 + 5 / 100 / 12)%float (-3)%float. Qed.

(** * Beyond the engine: what [api/crud.py] serves and stores *)

(** ** Lists and lookups *)

Lemma last_firstn {A : Type} (l : list A) (m : nat) (d d' : A) :
  (0 < m)%nat -> l <> [] ->
  last (firstn m l) d = nth (Nat.min m (length l) - 1) l d'.
Proof.
  revert m d. induction l as [|x l IH]; intros m d Hm Hl; [congruence|].
  destruct m as [|m]; [lia|]. cbn [firstn length].
  rewrite last_cons.
  destruct l as [|y l].
  - rewrite firstn_nil. destruct m; reflexivity.
  - destruct m as [|m]; [reflexivity|].
    rewrite (IH (S m) x); [|lia|discriminate].
    cbn [length]. replace (Nat.min (S (S m)) (S (S (length l))) - 1)%nat
      with (S (Nat.min (S m) (S (length l)) - 1)) by lia.
    reflexivity.
Qed.

Lemma find_app {A : Type} (p : A -> bool) (l1 l2 : list A) :
  find p (l1 ++ l2) = match find p l1 with Some x => Some x | None => find p l2 end.
Proof.
  induction l1 as [|x l1 IH]; [reflexivity|]. cbn [app find].
  destruct (p x); [reflexivity|exact IH].
Qed.

Lemma find_absent {A : Type} (p : A -> bool) (l : list A) :
  (forall x, In x l -> p x = false) -> find p l = None.
Proof.
  induction l as [|x l IH]; intros H; [reflexivity|]. cbn [find].
  rewrite (H x (or_introl eq_refl)). apply IH. intros y Hy. apply H. now right.
Qed.

Lemma existsb_find {A : Type} (p : A -> bool) (l : list A) :
  existsb p l = match find p l with Some _ => true | None => false end.
Proof.
  induction l as [|x l IH]; [reflexivity|]. cbn [existsb find].
  destruct (p x); [reflexivity|exact IH].
Qed.

(** Where keys are unique, the first row with the key of [x] is [x]. *)
Lemma find_unique {A K : Type} (key : A -> K) (eqb : K -> K -> bool) (l : list A) (x : A) :
  (forall a b, eqb a b = true <-> a = b) ->
  NoDup (map key l) -> In x l ->
  find (fun y => eqb (key y) (key x)) l = Some x.
Proof.
  intros Heqb. induction l as [|y l IH]; intros Hnd Hin; [destruct Hin|].
  cbn [map] in Hnd. inversion Hnd as [|? ? Hy Hl]; subst. cbn [find].
  destruct Hin as [-> | Hin].
  - now rewrite (proj2 (Heqb _ _) eq_refl).
  - destruct (eqb (key y) (key x)) eqn:E; [|auto].
    apply Heqb in E. exfalso. apply Hy. rewrite E. now apply in_map.
Qed.

Lemma query_first_absent (db : Session) (loan_id : Z) :
  query_first db loan_id = None <-> ~ In loan_id (map id db).
Proof.
  unfold query_first. split.
  - intros H Hin. apply in_map_iff in Hin as (l & <- & Hl).
    pose proof (find_none _ _ H l Hl) as E. cbn in E. lia.
  - intros H. apply find_absent. intros l Hl.
    apply Z.eqb_neq. intros E. apply H. rewrite <- E. now apply in_map.
Qed.

Lemma query_first_id (db : Session) (loan_id : Z) (loan : Loan) :
  query_first db loan_id = Some loan -> In loan db /\ id loan = loan_id.
Proof.
  intros H. apply find_some in H as [Hin E]. split; [assumption|]. cbn in E. lia.
Qed.

Lemma get_user_absent (db : Database) (uid : Z) :
  get_user db uid = None <-> ~ In uid (map User.id (users db)).
Proof.
  unfold get_user. split.
  - intros H Hin. apply in_map_iff in Hin as (u & <- & Hu).
    pose proof (find_none _ _ H u Hu) as E. cbn in E. lia.
  - intros H. apply find_absent. intros u Hu.
    apply Z.eqb_neq. intros E. apply H. rewrite <- E. now apply in_map.
Qed.

Lemma get_user_id (db : Database) (uid : Z) (u : User.t) :
  get_user db uid = Some u -> In u (users db) /\ User.id u = uid.
Proof.
  intros H. apply find_some in H as [Hin E]. split; [assumption|]. cbn in E. lia.
Qed.

Lemma get_user_by_email_absent (db : Database) (email : String.string) :
  get_user_by_email db email = None <-> ~ In email (map User.email (users db)).
Proof.
  unfold get_user_by_email. split.
  - intros H Hin. apply in_map_iff in Hin as (u & <- & Hu).
    pose proof (find_none _ _ H u Hu) as E. cbn in E.
    now rewrite String.eqb_refl in E.
  - intros H. apply find_absent. intros u Hu.
    apply String.eqb_neq. intros E. apply H. rewrite <- E. now apply in_map.
Qed.

(** ** The schedule and the summary of a stored loan *)

Lemma fold_summary_current (l : list ScheduleRow) (acc : float * float * float) :
  fst (fst (fold_left summary_step l acc))
  = last (map remaining_balance l) (fst (fst acc)).
Proof.
  revert acc. induction l as [|r l IH]; intros [[c p] i]; [reflexivity|].
  cbn [fold_left]. rewrite IH. cbn [map]. rewrite last_cons. reflexivity.
Qed.

Lemma follows_payments a adj b rows :
  follows a adj b rows -> Forall (fun r => payment_amount r = a) rows.
Proof.
  intros H. apply follows_Forall in H. revert H. apply Forall_impl. now intros r [H _].
Qed.

(** The only exceptions of [**] are the two arithmetic ones. *)
Lemma pow_raises (libm_pow : float -> float -> float) iv n e :
  PyFloat.pow libm_pow iv n = Raise e -> e = ZeroDivisionError \/ e = OverflowError.
Proof.
  unfold PyFloat.pow, PyFloat.of_int.
  destruct (is_infinity (PyFloat.of_Z n)); cbn [bind].
  - intros H. injection H as <-. auto.
  - repeat match goal with
           | |- context [if ?c then _ else _] => destruct c
           end; intros H; try discriminate H; injection H as <-; auto.
Qed.

Lemma calculator_raises (libm_pow : float -> float -> float)
    principal interest_rate period f e :
  calculate_amortization_amount libm_pow principal interest_rate period f = Raise e ->
  e = ZeroDivisionError \/ e = OverflowError.
Proof.
  rewrite calculate_amortization_amount_eq. cbn zeta.
  destruct (PyFloat.pow _ _ _) as [x|e'] eqn:Hpow; cbn [bind].
  - destruct (x - 1 =? 0)%float; intros H; [injection H as <-; auto|discriminate].
  - intros H. injection H as <-. eapply pow_raises, Hpow.
Qed.

Section ServedLoan.
Variable libm_pow : float -> float -> float.

Lemma get_loan_schedule_eq db loan_id loan :
  query_first db loan_id = Some loan ->
  get_loan_schedule libm_pow loan_id db =
  (rows <- amortization_schedule libm_pow (amount loan)
             (annual_interest_rate loan / 100)%float
             (loan_term_months loan) (frequency loan) ;;
   Ok (map serve rows)).
Proof.
  intros Hq. unfold get_loan_schedule. rewrite Hq, percent_to_fraction. reflexivity.
Qed.

Lemma get_loan_summary_eq db loan_id loan month :
  query_first db loan_id = Some loan ->
  get_loan_summary libm_pow loan_id month db =
  (rows <- amortization_schedule libm_pow (amount loan)
             (annual_interest_rate loan / 100)%float
             (loan_term_months loan) (frequency loan) ;;
   let '(current, principal_paid, interest_paid) :=
     fold_left summary_step (slice_to rows month) (0%float, 0%float, 0%float) in
   Ok {| current_principal_balance := PyFloat.round current 2;
         aggregate_principal_paid := PyFloat.round principal_paid 2;
         aggregate_interest_paid := PyFloat.round interest_paid 2 |}).
Proof.
  intros Hq. unfold get_loan_summary. rewrite Hq, percent_to_fraction. reflexivity.
Qed.

(** At a zero rate the growth factor is [1.0], whatever the frequency. *)
Lemma payment_at_zero_rate principal interest_rate period f :
  (interest_rate =? 0)%float = true ->
  calculate_amortization_amount libm_pow principal interest_rate period f =
  Raise match PyFloat.of_int period with
        | Ok _ => ZeroDivisionError
        | Raise e => e
        end.
Proof.
  intros Hzero. rewrite calculate_amortization_amount_eq. cbn zeta.
  assert (Hadj : (1 + per_period_rate interest_rate f)%float = 1%float).
  { destruct (float_eqb_zero _ Hzero) as [-> | ->];
      destruct f; vm_compute; reflexivity. }
  rewrite Hadj. unfold PyFloat.pow.
  destruct (PyFloat.of_int period) as [iw|e]; [|reflexivity].
  cbn [bind]. destruct (iw =? 0)%float; reflexivity.
Qed.

(** X1.  For a stored loan over a positive number of months,
    [get_loan_schedule] raises what the payment calculation raises;
    whenever the payment calculation returns, it serves one entry per
    month, numbered [1, 2, ..., loan_term_months] in this order, every entry
    before the last showing the calculated payment rounded to two decimals,
    and the last showing the remaining balance [0.0]. *)
Theorem served_schedule_rows db loan_id loan :
  query_first db loan_id = Some loan ->
  0 < loan_term_months loan ->
  (forall e,
     calculate_amortization_amount libm_pow (amount loan)
       (annual_interest_rate loan / 100)%float
       (loan_term_months loan) (frequency loan) = Raise e ->
     get_loan_schedule libm_pow loan_id db = Raise e) /\
  (forall a,
     calculate_amortization_amount libm_pow (amount loan)
       (annual_interest_rate loan / 100)%float
       (loan_term_months loan) (frequency loan) = Ok a ->
     exists body final,
       get_loan_schedule libm_pow loan_id db = Ok (body ++ [final]) /\
       map LoanSchedule.month (body ++ [final])
       = numbers_from 1 (Z.to_nat (loan_term_months loan)) /\
       Forall (fun s => LoanSchedule.monthly_payment s = PyFloat.round a 2) body /\
       LoanSchedule.remaining_balance final = 0%float).
Proof.
  intros Hq Hpos. rewrite (get_loan_schedule_eq _ _ _ Hq). split.
  - intros e He. now rewrite (amortization_schedule_raises _ _ _ _ _ _ He).
  - intros a Ha.
    destruct (amortization_schedule_returns _ _ _ _ _ _ Ha) as [rows Hrows].
    rewrite Hrows. cbn [bind].
    apply amortization_schedule_shape in Hrows.
    destruct Hrows as (a' & body & Ha' & -> & Hlen & Hnum & Hf).
    rewrite Ha in Ha'. injection Ha' as <-.
    rewrite map_app. cbn [map].
    eexists _, _. split; [reflexivity|]. repeat split.
    + rewrite map_app, map_map.
      change (fun x => LoanSchedule.month (serve x)) with period.
      rewrite Hnum. cbn [map closing_row period serve LoanSchedule.month].
      replace (Z.to_nat (loan_term_months loan))
        with (S (Z.to_nat (loan_term_months loan - 1))) by lia.
      rewrite numbers_from_snoc, Z2Nat.id by lia.
      now replace (1 + (loan_term_months loan - 1)) with (loan_term_months loan) by lia.
    + apply Forall_map. apply follows_payments in Hf. revert Hf.
      apply Forall_impl. intros r Hr. cbn. now rewrite Hr.
Qed.

(** X2.  Whenever the schedule of a loan is served, the summary at any
    month from [1] on is served as well, and its current principal balance
    is the remaining balance the served schedule shows for that month, or
    for the last month when the month asked for lies beyond it. *)
Theorem summary_balance_is_served_balance db loan_id month served :
  get_loan_schedule libm_pow loan_id db = Ok served ->
  1 <= month ->
  exists s entry,
    get_loan_summary libm_pow loan_id month db = Ok s /\
    nth_error served (Z.to_nat (Z.min month (Z.of_nat (length served)) - 1))
    = Some entry /\
    current_principal_balance s = LoanSchedule.remaining_balance entry.
Proof.
  intros Hs Hm.
  destruct (query_first db loan_id) as [loan|] eqn:Hq;
    [|unfold get_loan_schedule in Hs; rewrite Hq in Hs; discriminate].
  rewrite (get_loan_schedule_eq _ _ _ Hq) in Hs.
  rewrite (get_loan_summary_eq _ _ _ _ Hq).
  destruct (amortization_schedule _ _ _ _ _) as [rows|e] eqn:Hrows; [|discriminate].
  cbn [bind] in Hs |- *. injection Hs as <-.
  apply amortization_schedule_shape in Hrows.
  destruct Hrows as (_ & body & _ & Hrows & _).
  assert (Hne : rows <> []) by (rewrite Hrows; destruct body; discriminate).
  clear Hrows.
  pose proof (fold_summary_current (slice_to rows month) (0, 0, 0)%float) as Hfold.
  destruct (fold_left _ _ _) as [[c p] i]. cbn [fst] in Hfold.
  eexists _, (serve (nth (Z.to_nat (Z.min month (Z.of_nat (length rows)) - 1)) rows
                       (closing_row 0 0 0))).
  split; [reflexivity|]. rewrite length_map. split.
  - rewrite nth_error_map, (nth_error_nth' rows (closing_row 0 0 0)); [reflexivity|].
    destruct rows; [congruence|]. cbn [length]. lia.
  - cbn [current_principal_balance serve LoanSchedule.remaining_balance].
    f_equal. rewrite Hfold. unfold slice_to.
    replace (0 <=? month) with true by lia.
    rewrite <- firstn_map.
    rewrite (last_firstn _ _ _ (remaining_balance (closing_row 0 0 0)));
      [|lia|destruct rows; [congruence|discriminate]].
    rewrite length_map, map_nth. f_equal. f_equal. lia.
Qed.

(** X3.  For a stored loan, the summary at a month that is at least [1]
    and at least the term raises what the payment calculation raises;
    whenever the payment calculation returns, the summary is served and its
    current principal balance is [0.0]: the loan is paid off. *)
Theorem summary_at_term_is_paid_off db loan_id loan month :
  query_first db loan_id = Some loan ->
  1 <= month ->
  loan_term_months loan <= month ->
  (forall e,
     calculate_amortization_amount libm_pow (amount loan)
       (annual_interest_rate loan / 100)%float
       (loan_term_months loan) (frequency loan) = Raise e ->
     get_loan_summary libm_pow loan_id month db = Raise e) /\
  (forall a,
     calculate_amortization_amount libm_pow (amount loan)
       (annual_interest_rate loan / 100)%float
       (loan_term_months loan) (frequency loan) = Ok a ->
     exists s,
       get_loan_summary libm_pow loan_id month db = Ok s /\
       current_principal_balance s = 0%float).
Proof.
  intros Hq Hm Hterm. rewrite (get_loan_summary_eq _ _ _ _ Hq). split.
  - intros e He. now rewrite (amortization_schedule_raises _ _ _ _ _ _ He).
  - intros a Ha.
    destruct (amortization_schedule_returns _ _ _ _ _ _ Ha) as [rows Hrows].
    rewrite Hrows. cbn [bind].
    apply amortization_schedule_shape in Hrows.
    destruct Hrows as (_ & body & _ & -> & Hlen & _ & _).
    rewrite slice_to_all by (rewrite length_app, Hlen; cbn [length]; lia).
    match goal with
    | |- context [fold_left summary_step ?l ?acc] =>
        pose proof (fold_summary_current l acc) as Hfold;
        destruct (fold_left summary_step l acc) as [[c p] i]
    end.
    cbn [fst] in Hfold. eexists. split; [reflexivity|].
    cbn [current_principal_balance]. rewrite Hfold, map_app. cbn [map].
    rewrite last_last. reflexivity.
Qed.

(** X4.  A negative month is not refused: for a stored loan over a positive
    number of months [T], the summary at month [-k] is the summary at month
    [T - k], and the summary at month [0] when [k] exceeds [T]; the slice
    counts back from the end of the schedule. *)
Theorem negative_month_counts_from_end db loan_id loan month :
  query_first db loan_id = Some loan ->
  0 < loan_term_months loan ->
  month < 0 ->
  get_loan_summary libm_pow loan_id month db
  = get_loan_summary libm_pow loan_id (Z.max 0 (loan_term_months loan + month)) db.
Proof.
  intros Hq Hpos Hneg. rewrite !(get_loan_summary_eq _ _ _ _ Hq).
  destruct (amortization_schedule _ _ _ _ _) as [rows|e] eqn:Hrows; [|reflexivity].
  cbn [bind]. apply amortization_schedule_shape in Hrows.
  destruct Hrows as (_ & body & _ & Hrows & Hlen & _ & _).
  assert (Hlength : length rows = Z.to_nat (loan_term_months loan)).
  { rewrite Hrows, length_app, Hlen. cbn [length]. lia. }
  clear Hrows. unfold slice_to.
  replace (0 <=? month) with false by lia.
  replace (0 <=? Z.max 0 (loan_term_months loan + month)) with true by lia.
  replace (length rows - Z.to_nat (- month))%nat
    with (Z.to_nat (Z.max 0 (loan_term_months loan + month))) by lia.
  reflexivity.
Qed.

(** X5.  A stored loan whose annual rate is zero cannot be served: its
    schedule, and its summary at every month, month [0] included, raise the
    [ZeroDivisionError] of the payment formula ([OverflowError] when the
    term is too large an int to be a float). *)
Theorem zero_rate_loan_is_not_served db loan_id loan month :
  query_first db loan_id = Some loan ->
  (annual_interest_rate loan =? 0)%float = true ->
  let raised := match PyFloat.of_int (loan_term_months loan) with
                | Ok _ => ZeroDivisionError
                | Raise e => e
                end in
  get_loan_schedule libm_pow loan_id db = Raise raised /\
  get_loan_summary libm_pow loan_id month db = Raise raised.
Proof.
  intros Hq Hzero raised.
  assert (Hrate : (annual_interest_rate loan / 100 =? 0)%float = true).
  { destruct (float_eqb_zero _ Hzero) as [-> | ->]; vm_compute; reflexivity. }
  pose proof (amortization_schedule_raises libm_pow _ _ _ _ _
                (payment_at_zero_rate (amount loan) _ (loan_term_months loan)
                   (frequency loan) Hrate)) as Hraise.
  rewrite (get_loan_schedule_eq _ _ _ Hq), (get_loan_summary_eq _ _ _ _ Hq), Hraise.
  split; reflexivity.
Qed.

(** X6.  The schedule and the summary raise an [HTTPException] in one case
    only, with the status 404: when no row of the [loans] table has the id
    asked for.  Whatever else goes wrong for a stored loan is an arithmetic
    exception of the engine, never an [HTTPException]. *)
Theorem http_error_means_missing_loan db loan_id month status_code :
  (get_loan_schedule libm_pow loan_id db = Raise (HTTPException status_code)
   <-> status_code = 404 /\ ~ In loan_id (map id db)) /\
  (get_loan_summary libm_pow loan_id month db = Raise (HTTPException status_code)
   <-> status_code = 404 /\ ~ In loan_id (map id db)).
Proof.
  rewrite <- query_first_absent.
  unfold get_loan_schedule, get_loan_summary.
  destruct (query_first db loan_id) as [loan|] eqn:Hq.
  - rewrite percent_to_fraction. cbn [bind].
    destruct (amortization_schedule _ _ _ _ _) as [rows|e] eqn:Hrows; cbn [bind].
    + split; (split; [|intros [_ H]; discriminate H]).
      * discriminate.
      * destruct (fold_left _ _ _) as [[c p] i]. discriminate.
    + rewrite amortization_schedule_eq in Hrows.
      destruct (calculate_amortization_amount _ _ _ _ _) as [a|e'] eqn:Ha;
        [discriminate|].
      injection Hrows as <-.
      destruct (calculator_raises _ _ _ _ _ _ Ha) as [-> | ->];
        split; (split; [discriminate|intros [_ H]; discriminate H]).
  - split; (split; [intros H; injection H as <-; auto|intros [-> _]; reflexivity]).
Qed.

End ServedLoan.

(** ** The recurrence of the schedule *)

Lemma balance_before_cons b r rows j :
  (j < length rows)%nat ->
  balance_before b (r :: rows) (S j) = balance_before (remaining_balance r) rows j.
Proof.
  intros Hj. destruct j as [|k]; [reflexivity|].
  cbn [balance_before map nth]. apply nth_indep. rewrite length_map. lia.
Qed.

Lemma follows_nth a adj b rows i r :
  follows a adj b rows ->
  nth_error rows i = Some r ->
  payment_amount r = a /\
  interest_component r = PyFloat.round (balance_before b rows i * adj)%float 2 /\
  principal_component r = (a - interest_component r)%float /\
  remaining_balance r = (balance_before b rows i - principal_component r)%float.
Proof.
  revert b i. induction rows as [|r0 rows IH]; intros b i Hf Hi.
  - destruct i; discriminate.
  - destruct Hf as (Hp & Hi0 & Hc & Hb & Hrest). destruct i as [|j].
    + injection Hi as <-. cbn [balance_before]. auto.
    + cbn [nth_error] in Hi.
      rewrite balance_before_cons by (apply nth_error_Some; congruence).
      eauto.
Qed.

Lemma balance_before_app b body final i :
  (i <= length body)%nat ->
  balance_before b (body ++ [final]) i = balance_before b body i.
Proof.
  intros Hi. destruct i as [|j]; [reflexivity|].
  cbn [balance_before]. rewrite map_app. apply app_nth1. rewrite length_map. lia.
Qed.

Lemma balance_before_end b body :
  balance_before b body (length body) = last (map remaining_balance body) b.
Proof.
  destruct body as [|r body] using rev_ind; [reflexivity|].
  rewrite length_app. cbn [length].
  replace (length body + 1)%nat with (S (length body)) by lia.
  cbn [balance_before]. rewrite map_app. cbn [map]. rewrite last_last.
  rewrite app_nth2; rewrite length_map; [|lia]. now rewrite Nat.sub_diag.
Qed.

Section Recurrence.
Variable libm_pow : float -> float -> float.

(** X7.  In every schedule that is yielded, each row takes as interest the
    rounded interest on the balance the row before has left (the principal,
    for the first row).  A row before the last carries the payment returned
    by [calculate_amortization_amount], pays that payment less its interest
    of principal, and leaves the balance less that; the last row pays the
    whole balance and its interest, and leaves [0]. *)
Theorem schedule_recurrence principal interest_rate periods f rows :
  amortization_schedule libm_pow principal interest_rate periods f = Ok rows ->
  exists a,
    calculate_amortization_amount libm_pow principal interest_rate periods f = Ok a /\
    forall i r,
      nth_error rows i = Some r ->
      let before := balance_before principal rows i in
      interest_component r
      = PyFloat.round (before * per_period_rate interest_rate f)%float 2 /\
      ((S i < length rows)%nat ->
       payment_amount r = a /\
       principal_component r = (a - interest_component r)%float /\
       remaining_balance r = (before - principal_component r)%float) /\
      (S i = length rows ->
       payment_amount r = (before + interest_component r)%float /\
       principal_component r = before /\
       remaining_balance r = 0%float).
Proof.
  intros H. apply amortization_schedule_shape in H.
  destruct H as (a & body & Ha & -> & _ & _ & Hf).
  exists a. split; [assumption|]. intros i r Hi before.
  assert (Hlt : (i < length (body ++ [closing_row periods (per_period_rate interest_rate f)
                    (last (map remaining_balance body) principal)]))%nat)
    by (apply nth_error_Some; congruence).
  rewrite length_app in *. cbn [length] in *.
  unfold before. rewrite balance_before_app by lia.
  destruct (Nat.eq_dec i (length body)) as [-> | Hne].
  - rewrite nth_error_app2, Nat.sub_diag in Hi by lia. injection Hi as <-.
    rewrite balance_before_end. cbn. repeat split; intros; try lia.
  - rewrite nth_error_app1 in Hi by lia.
    destruct (follows_nth _ _ _ _ _ _ Hf Hi) as (Hp & Hin & Hc & Hb).
    repeat split; intros; try assumption; lia.
Qed.
End Recurrence.

(** ** The payment calculator and the sign of the principal *)

Lemma zero_or_nan_shape (x : float) :
  (Prim2SF x = S754_nan \/ exists s, Prim2SF x = S754_zero s) -> zero_or_nan x.
Proof.
  unfold zero_or_nan, is_nan. rewrite !eqb_spec.
  intros [-> | [s ->]]; [right|left]; reflexivity.
Qed.

Lemma mul_zero_shape (p y : float) :
  (p =? 0)%float = true ->
  Prim2SF (p * y) = S754_nan \/ exists s, Prim2SF (p * y) = S754_zero s.
Proof.
  intros H. rewrite mul_spec.
  destruct (float_eqb_zero _ H) as [-> | ->];
    [change (Prim2SF zero) with (S754_zero false)
    |change (Prim2SF neg_zero) with (S754_zero true)];
    destruct (Prim2SF y) as [s|s| |s m e]; cbn; eauto.
Qed.

Lemma div_zero_shape (q z : float) :
  (Prim2SF q = S754_nan \/ exists s, Prim2SF q = S754_zero s) ->
  Prim2SF (q / z) = S754_nan \/ exists s, Prim2SF (q / z) = S754_zero s.
Proof.
  intros H. rewrite div_spec.
  destruct H as [-> | [s ->]]; destruct (Prim2SF z) as [s'|s'| |s' m e]; cbn; eauto.
Qed.

Lemma round_zero_shape (x : float) (ndigits : Z) :
  (Prim2SF x = S754_nan \/ exists s, Prim2SF x = S754_zero s) ->
  PyFloat.round x ndigits = x.
Proof.
  unfold PyFloat.round. intros [-> | [s ->]]; reflexivity.
Qed.

Lemma SFopp_involutive (x : spec_float) : SFopp (SFopp x) = x.
Proof. destruct x as [s|s| |s m e]; cbn; now rewrite ?negb_involutive. Qed.

Lemma float_opp_involutive (x : float) : (- - x)%float = x.
Proof. apply Prim2SF_inj. rewrite !opp_spec. apply SFopp_involutive. Qed.

(** Rounding to nearest even does not look at the sign. *)
Lemma binary_round_aux_opp (s : bool) (m e : Z) (l : location) :
  binary_round_aux prec emax (negb s) m e l
  = SFopp (binary_round_aux prec emax s m e l).
Proof.
  unfold binary_round_aux.
  destruct (shr_fexp prec emax m e l) as [mrs' e'].
  destruct (shr_fexp prec emax _ e' loc_Exact) as [mrs'' e''].
  destruct (shr_m mrs''); [reflexivity| |reflexivity].
  destruct (e'' <=? emax - prec); reflexivity.
Qed.

Lemma xorb_negb_l (a b : bool) : xorb (negb a) b = negb (xorb a b).
Proof. destruct a, b; reflexivity. Qed.

Lemma SFmul_opp_l (x y : spec_float) :
  SFmul prec emax (SFopp x) y = SFopp (SFmul prec emax x y).
Proof.
  destruct x as [s|s| |s m e], y as [t|t| |t n k]; cbn [SFmul SFopp];
    rewrite ?xorb_negb_l, ?binary_round_aux_opp; reflexivity.
Qed.

Lemma SFdiv_opp_l (x y : spec_float) :
  SFdiv prec emax (SFopp x) y = SFopp (SFdiv prec emax x y).
Proof.
  destruct x as [s|s| |s m e], y as [t|t| |t n k]; cbn [SFdiv SFopp];
    rewrite ?xorb_negb_l; try reflexivity.
  destruct (SFdiv_core_binary _ _ _ _ _ _) as [[mz ez] lz].
  apply binary_round_aux_opp.
Qed.

Lemma float_mul_opp_l (x y : float) : (- x * y)%float = (- (x * y))%float.
Proof.
  apply Prim2SF_inj. rewrite mul_spec, !opp_spec, mul_spec. apply SFmul_opp_l.
Qed.

Lemma float_div_opp_l (x y : float) : (- x / y)%float = (- (x / y))%float.
Proof.
  apply Prim2SF_inj. rewrite div_spec, !opp_spec, div_spec. apply SFdiv_opp_l.
Qed.

Lemma SF2Prim_opp (z : spec_float) : SF2Prim (SFopp z) = (- SF2Prim z)%float.
Proof.
  destruct z as [[|]|[|]| |[|] m e]; cbn [SFopp SF2Prim negb]; try reflexivity.
  now rewrite float_opp_involutive.
Qed.

(** [round(-x, n)] is [-round(x, n)]: ties go to the even digit on both
    sides of zero. *)
Lemma round_opp (x : float) (ndigits : Z) :
  PyFloat.round (- x) ndigits = (- PyFloat.round x ndigits)%float.
Proof.
  unfold PyFloat.round. rewrite opp_spec.
  destruct (Prim2SF x) as [s|s| |s m e]; cbn [SFopp]; try reflexivity.
  cbn zeta.
  destruct (if 0 <=? e then _ else _) as [|p|p].
  - destruct s; reflexivity.
  - unfold PyFloat.of_ratio.
    change (S754_finite (negb s) p 0) with (SFopp (S754_finite s p 0)).
    now rewrite SFdiv_opp_l, SF2Prim_opp.
  - destruct s; reflexivity.
Qed.

Section PrincipalSign.
Variable libm_pow : float -> float -> float.

(** X8.  Whether the payment calculation raises does not depend on the
    principal; and for a principal of zero ([0.0] or [-0.0]) a payment that
    is returned is zero, or NaN when the rate arithmetic has left the
    numbers. *)
Theorem zero_principal_payment principal other interest_rate period f :
  (principal =? 0)%float = true ->
  (forall e,
     calculate_amortization_amount libm_pow other interest_rate period f = Raise e ->
     calculate_amortization_amount libm_pow principal interest_rate period f = Raise e) /\
  (forall b,
     calculate_amortization_amount libm_pow other interest_rate period f = Ok b ->
     exists a,
       calculate_amortization_amount libm_pow principal interest_rate period f = Ok a /\
       zero_or_nan a).
Proof.
  intros Hzero. rewrite !calculate_amortization_amount_eq. cbn zeta.
  destruct (PyFloat.pow _ _ _) as [x|e]; cbn [bind].
  - destruct (x - 1 =? 0)%float.
    + split; [auto|discriminate].
    + split; [discriminate|]. intros b _. eexists. split; [reflexivity|].
      pose proof (div_zero_shape _ (x - 1)
                    (mul_zero_shape principal
                       (per_period_rate interest_rate f * x) Hzero)) as Hq.
      rewrite (round_zero_shape _ 2 Hq). now apply zero_or_nan_shape.
  - split; [auto|discriminate].
Qed.

(** X9.  The sign of the principal is not checked and passes through: the
    calculation for [-principal] raises whatever it raises for [principal],
    and otherwise returns exactly the negated payment. *)
Theorem negative_principal_mirrors_payment principal interest_rate period f :
  (forall e,
     calculate_amortization_amount libm_pow principal interest_rate period f = Raise e ->
     calculate_amortization_amount libm_pow (- principal) interest_rate period f
     = Raise e) /\
  (forall a,
     calculate_amortization_amount libm_pow principal interest_rate period f = Ok a ->
     calculate_amortization_amount libm_pow (- principal) interest_rate period f
     = Ok (- a)%float).
Proof.
  rewrite !calculate_amortization_amount_eq. cbn zeta.
  destruct (PyFloat.pow _ _ _) as [x|e]; cbn [bind]; [|split; [auto|discriminate]].
  destruct (x - 1 =? 0)%float; split; try discriminate; try auto.
  intros a H. injection H as <-.
  now rewrite float_mul_opp_l, float_div_opp_l, round_opp.
Qed.
End PrincipalSign.

(** ** The payment frequencies *)

(** X10.  No two payment frequencies share a value, every value is
    positive, and so the division of a rate by the value of a frequency,
    the first step of the calculator and of the generator, never raises,
    whatever the rate. *)
Theorem frequencies_divide_safely :
  (forall f g, value f = value g -> f = g) /\
  (forall f, 0 < value f) /\
  (forall interest_rate f,
     PyFloat.truediv_int interest_rate (value f)
     = Ok (interest_rate / PyFloat.of_Z (value f))%float).
Proof.
  repeat split.
  - intros f g; destruct f, g; intros H; try reflexivity; discriminate H.
  - destruct f; reflexivity.
  - intros r f. destruct f; vm_compute; reflexivity.
Qed.

(** ** Users *)

Section RegistrationFacts.
Variable new_id : list Z -> Z.

(** X11.  A registration with an email that a stored user has is answered
    with status 400 and the detail that quotes the email; the unique index
    that [create_user] alone would run into is never reached.  With a new
    email the user is stored, active, with the password followed by
    [notreallyhashed]; a lookup by the email then returns this user, and a
    second registration is answered with 400. *)
Theorem registration_rejects_known_email user db :
  let email := UserCreate.email user in
  (In email (map User.email (users db)) ->
   create_user new_id db user = Raises_IntegrityError /\
   create_user_endpoint new_id user db
   = Raises_HTTPException 400 (already_registered email)) /\
  (~ In email (map User.email (users db)) ->
   let db_user :=
     {| User.id := new_id (map User.id (users db));
        User.email := email;
        User.hashed_password :=
          String.append (UserCreate.password user) "notreallyhashed"%string;
        User.is_active := true |} in
   let db' := {| users := users db ++ [db_user]; loans := loans db |} in
   create_user_endpoint new_id user db = Returns (db_user, db') /\
   get_user_by_email db' email = Some db_user /\
   create_user_endpoint new_id user db'
   = Raises_HTTPException 400 (already_registered email)).
Proof.
  intros email. split.
  - intros Hin.
    destruct (get_user_by_email db email) as [known|] eqn:Hknown;
      [|now apply get_user_by_email_absent in Hknown].
    unfold create_user_endpoint, create_user. fold email.
    rewrite existsb_find. fold (get_user_by_email db email). rewrite Hknown.
    split; [reflexivity|].
    apply find_some in Hknown as [_ E]. apply String.eqb_eq in E. now rewrite E.
  - intros Hnew db_user db'.
    apply get_user_by_email_absent in Hnew.
    assert (Hfound : get_user_by_email db' email = Some db_user).
    { unfold get_user_by_email in *. cbn [users db']. rewrite find_app, Hnew.
      cbn [find User.email db_user]. now rewrite String.eqb_refl. }
    repeat split.
    + unfold create_user_endpoint, create_user. fold email.
      rewrite existsb_find. fold (get_user_by_email db email). now rewrite Hnew.
    + exact Hfound.
    + unfold create_user_endpoint. fold email. now rewrite Hfound.
Qed.

(** X12.  Registration keeps the emails of the [users] table distinct,
    and keeps every user that was stored. *)
Theorem emails_stay_unique user db db_user db' :
  NoDup (map User.email (users db)) ->
  create_user_endpoint new_id user db = Returns (db_user, db') ->
  NoDup (map User.email (users db')) /\
  forall u, In u (users db) -> In u (users db').
Proof.
  intros Hnd H. unfold create_user_endpoint in H.
  destruct (get_user_by_email db (UserCreate.email user)) as [known|] eqn:Hknown;
    [discriminate|].
  unfold create_user in H. rewrite existsb_find in H.
  fold (get_user_by_email db (UserCreate.email user)) in H. rewrite Hknown in H.
  injection H as <- <-. cbn [users]. split.
  - rewrite map_app. cbn [map User.email].
    apply get_user_by_email_absent in Hknown.
    apply NoDup_app; [assumption|constructor; [intros []|constructor]|].
    intros e He [<-|[]]. contradiction.
  - intros u Hu. apply in_or_app. now left.
Qed.
End RegistrationFacts.

(** X13.  In tables whose keys are distinct, every stored row is the one
    its key finds: a user by id and by email, a loan by id. *)
Theorem stored_row_is_found db :
  NoDup (map User.id (users db)) ->
  NoDup (map User.email (users db)) ->
  NoDup (map id (loans db)) ->
  (forall u, In u (users db) ->
     get_user db (User.id u) = Some u /\
     get_user_by_email db (User.email u) = Some u) /\
  (forall l, In l (loans db) -> query_first (loans db) (id l) = Some l).
Proof.
  intros Hid Hemail Hloan. split; [intros u Hu; split|intros l Hl].
  - apply (find_unique User.id Z.eqb); auto using Z.eqb_eq.
  - apply (find_unique User.email String.eqb); auto using String.eqb_eq.
  - apply (find_unique id Z.eqb); auto using Z.eqb_eq.
Qed.

(** ** Pages *)

Lemma offset_limit_incl {A : Type} (skip limit : Z) (rows : list A) (x : A) :
  In x (offset_limit skip limit rows) -> In x rows.
Proof.
  unfold offset_limit. intros H.
  assert (Hrest : In x (skipn (Z.to_nat skip) rows)).
  { destruct (limit <? 0); [assumption|].
    rewrite <- (firstn_skipn (Z.to_nat limit)). apply in_or_app. now left. }
  rewrite <- (firstn_skipn (Z.to_nat skip) rows). apply in_or_app. now right.
Qed.

Lemma offset_limit_length {A : Type} (skip limit : Z) (rows : list A) :
  Z.of_nat (length (offset_limit skip limit rows))
  = page_length (Z.of_nat (length rows)) skip limit.
Proof.
  unfold offset_limit, page_length.
  destruct (limit <? 0) eqn:E; rewrite ?length_firstn, length_skipn; lia.
Qed.

Lemma offset_limit_all {A : Type} (skip limit : Z) (rows : list A) :
  skip <= 0 -> Z.of_nat (length rows) <= limit ->
  offset_limit skip limit rows = rows.
Proof.
  intros Hs Hl. unfold offset_limit.
  replace (Z.to_nat skip) with 0%nat by lia. cbn [skipn].
  destruct (limit <? 0); [reflexivity|]. apply firstn_all2. lia.
Qed.

Lemma offset_limit_pages {A : Type} (skip a b : Z) (rows : list A) :
  0 <= skip -> 0 <= a -> 0 <= b ->
  offset_limit skip a rows ++ offset_limit (skip + a) b rows
  = offset_limit skip (a + b) rows.
Proof.
  intros Hs Ha Hb. unfold offset_limit.
  replace (a <? 0) with false by lia. replace (b <? 0) with false by lia.
  replace (a + b <? 0) with false by lia.
  rewrite Z2Nat.inj_add, Nat.add_comm, <- skipn_skipn by lia.
  generalize (skipn (Z.to_nat skip) rows) as rest. intros rest.
  rewrite Z2Nat.inj_add by lia.
  generalize (Z.to_nat a) as n. generalize (Z.to_nat b) as m. intros m n.
  revert rest. induction n as [|n IH]; intros rest; [reflexivity|].
  destruct rest as [|x rest]; [now rewrite !firstn_nil|].
  cbn [Nat.add firstn skipn app]. now rewrite IH.
Qed.

(** X14.  [get_users] returns what is left of the table after [skip]
    rows, cut at [limit]; a negative [skip] skips nothing and a negative
    [limit] cuts nothing.  Its length is [page_length]. *)
Theorem user_page_length db skip limit :
  Z.of_nat (length (get_users db skip limit))
  = page_length (Z.of_nat (length (users db))) skip limit /\
  (skip <= 0 -> limit < 0 -> get_users db skip limit = users db).
Proof.
  split; [apply offset_limit_length|].
  intros Hs Hl. unfold get_users, offset_limit.
  replace (Z.to_nat skip) with 0%nat by lia. now replace (limit <? 0) with true by lia.
Qed.

(** X15.  Consecutive pages of users tile the table: the page of [first]
    rows after [skip], followed by the page of [second] rows after
    [skip + first], is the page of [first + second] rows after [skip]. *)
Theorem user_pages_tile db skip first second :
  0 <= skip -> 0 <= first -> 0 <= second ->
  get_users db skip first ++ get_users db (skip + first) second
  = get_users db skip (first + second).
Proof. apply offset_limit_pages. Qed.

(** X16.  [get_user_loans] answers 404 when no user has the id.
    Otherwise every loan it returns is a stored loan of that user, there
    are at most [limit] of them when [limit] is not negative, and without
    a skip and with a limit that covers the table they are all the loans
    of the user, in the order of the table. *)
Theorem user_loans_belong_to_user db uid skip limit :
  (~ In uid (map User.id (users db)) ->
   get_user_loans uid db skip limit
   = Raises_HTTPException 404 "User not found"%string) /\
  (In uid (map User.id (users db)) ->
   exists held,
     get_user_loans uid db skip limit = Returns held /\
     Forall (fun l => In l (loans db) /\ user_id l = uid) held /\
     (0 <= limit -> Z.of_nat (length held) <= limit) /\
     (skip <= 0 -> Z.of_nat (length (loans db)) <= limit ->
      held = filter (fun l => user_id l =? uid) (loans db))).
Proof.
  unfold get_user_loans. fold (get_user db uid). split.
  - intros H. apply get_user_absent in H. now rewrite H.
  - intros H. destruct (get_user db uid) as [db_user|] eqn:Hg;
      [|now apply get_user_absent in Hg].
    apply get_user_id in Hg as [_ ->].
    eexists. split; [reflexivity|]. repeat split.
    + apply Forall_forall. intros l Hl. apply offset_limit_incl, filter_In in Hl.
      destruct Hl as [Hin E]. split; [assumption|lia].
    + intros Hl. rewrite offset_limit_length. unfold page_length.
      replace (limit <? 0) with false by lia. lia.
    + intros Hs Hl. apply offset_limit_all; [assumption|].
      pose proof (filter_length_le (fun l => user_id l =? uid) (loans db)). lia.
Qed.

(** ** Sharing a loan *)

Lemma assign_owner_id (k owner : Z) (l : Loan) : id (assign_owner k owner l) = id l.
Proof. unfold assign_owner. destruct (id l =? k); reflexivity. Qed.

Lemma query_first_assign_owner (k owner : Z) (db : Session) (loan_id : Z) :
  query_first (map (assign_owner k owner) db) loan_id
  = option_map (assign_owner k owner) (query_first db loan_id).
Proof.
  unfold query_first. induction db as [|l db IH]; [reflexivity|].
  cbn [map find]. rewrite assign_owner_id.
  destruct (id l =? loan_id); [reflexivity|exact IH].
Qed.

(** X17.  [share_loan] looks for the loan first: it answers 404 with
    [Loan not found] when no loan has the id, whoever the user is, and 404
    with [User not found] when the loan is there and no user has the id.
    Otherwise the loan is found under its id with the user as its owner and
    nothing else changed, every other id finds what it found before, and the
    users are as they were. *)
Theorem share_loan_moves_the_loan db loan_id uid :
  (~ In loan_id (map id (loans db)) ->
   share_loan loan_id uid db = Raises_HTTPException 404 "Loan not found"%string) /\
  (In loan_id (map id (loans db)) ->
   ~ In uid (map User.id (users db)) ->
   share_loan loan_id uid db = Raises_HTTPException 404 "User not found"%string) /\
  (forall loan,
     query_first (loans db) loan_id = Some loan ->
     In uid (map User.id (users db)) ->
     exists db',
       share_loan loan_id uid db = Returns ("Loan shared successfully"%string, db') /\
       users db' = users db /\
       query_first (loans db') loan_id = Some (with_owner uid loan) /\
       forall other,
         other <> loan_id ->
         query_first (loans db') other = query_first (loans db) other).
Proof.
  unfold share_loan. fold (get_user db uid). repeat split.
  - intros H. apply query_first_absent in H. now rewrite H.
  - intros Hl Hu. apply get_user_absent in Hu. rewrite Hu.
    destruct (query_first (loans db) loan_id) eqn:Hq; [reflexivity|].
    now apply query_first_absent in Hq.
  - intros loan Hq Hu. rewrite Hq.
    destruct (get_user db uid) as [user_to_share|] eqn:Hg;
      [|now apply get_user_absent in Hg].
    apply get_user_id in Hg as [_ <-]. pose proof (query_first_id _ _ _ Hq) as [_ Hid].
    eexists. split; [reflexivity|]. cbn [users loans]. split; [reflexivity|]. split.
    + rewrite query_first_assign_owner, Hq. cbn [option_map]. unfold assign_owner.
      rewrite Z.eqb_refl. reflexivity.
    + intros other Hother. rewrite query_first_assign_owner.
      destruct (query_first (loans db) other) as [l|] eqn:Ho; [|reflexivity].
      cbn [option_map]. apply query_first_id in Ho as [_ Ho]. unfold assign_owner.
      replace (id l =? id loan) with false by lia. reflexivity.
Qed.

(** X18.  Sharing hands the loan over: once a loan is shared with another
    user, no page of the loans of its former owner contains it, and the
    loans of the new owner do. *)
Theorem shared_loan_changes_hands db db' loan_id uid loan msg :
  share_loan loan_id uid db = Returns (msg, db') ->
  query_first (loans db) loan_id = Some loan ->
  user_id loan <> uid ->
  (forall skip limit kept,
     get_user_loans (user_id loan) db' skip limit = Returns kept ->
     ~ In loan_id (map id kept)) /\
  (forall limit,
     Z.of_nat (length (loans db)) <= limit ->
     exists held,
       get_user_loans uid db' 0 limit = Returns held /\
       In (with_owner uid loan) held).
Proof.
  intros Hshare Hq Hne. unfold share_loan in Hshare. rewrite Hq in Hshare.
  fold (get_user db uid) in Hshare.
  destruct (get_user db uid) as [user_to_share|] eqn:Hg; [|discriminate].
  injection Hshare as _ <-.
  pose proof (get_user_id _ _ _ Hg) as [_ Huid]. rewrite Huid.
  pose proof (query_first_id _ _ _ Hq) as [Hin Hid]. rewrite Hid.
  unfold get_user_loans. cbn [users loans]. split.
  - intros skip limit kept Hkept.
    destruct (find _ (users db)) as [owner|] eqn:Ho; [|discriminate].
    injection Hkept as <-. intros Hk.
    apply in_map_iff in Hk as (l & Hl & Hk).
    apply offset_limit_incl, filter_In in Hk as [Hk E].
    apply in_map_iff in Hk as (l0 & <- & _).
    apply find_some in Ho as [_ Ho]. cbn in Ho.
    rewrite assign_owner_id in Hl. unfold assign_owner in E.
    replace (id l0 =? loan_id) with true in E by lia. cbn [user_id] in E. lia.
  - intros limit Hl. fold (get_user db uid). rewrite Hg, Huid.
    eexists. split; [reflexivity|].
    rewrite offset_limit_all;
      [|lia|pose proof (filter_length_le (fun l => user_id l =? uid)
                          (map (assign_owner loan_id uid) (loans db)));
            rewrite length_map in *; lia].
    apply filter_In. split; [|cbn; lia].
    apply in_map_iff. exists loan. split; [|assumption].
    unfold assign_owner. replace (id loan =? loan_id) with true by lia. reflexivity.
Qed.

Section SharingFacts.
Variable libm_pow : float -> float -> float.

(** X19.  Sharing a loan changes no schedule and no summary: after
    [share_loan], every loan id is served the schedule and the summaries it
    was served before. *)
Theorem sharing_keeps_schedules db db' loan_id uid msg :
  share_loan loan_id uid db = Returns (msg, db') ->
  forall any month,
    get_loan_schedule libm_pow any (loans db')
    = get_loan_schedule libm_pow any (loans db) /\
    get_loan_summary libm_pow any month (loans db')
    = get_loan_summary libm_pow any month (loans db).
Proof.
  intros Hshare any month. unfold share_loan in Hshare.
  destruct (query_first (loans db) loan_id) as [loan|]; [|discriminate].
  destruct (find _ (users db)) as [user_to_share|]; [|discriminate].
  injection Hshare as _ <-. cbn [loans].
  unfold get_loan_schedule, get_loan_summary. rewrite query_first_assign_owner.
  destruct (query_first (loans db) any) as [l|]; [|split; reflexivity].
  cbn [option_map]. unfold assign_owner.
  destruct (id l =? id loan); split; reflexivity.
Qed.
End SharingFacts.

(** * Worked instances *)

(** A float that fails [=?] against another is a different float. *)
Lemma eqb_false_neq (x y : float) : (x =? x)%float = true -> (x =? y)%float = false -> x <> y.
Proof. intros Hx Hxy Heq. rewrite <- Heq, Hx in Hxy. discriminate. Qed.

(** ** Python's [round] on the classic cases

    [2.675] is stored below 2.675 and rounds down; [0.125] and [0.375] are
    exact ties and go to the even digit; a negative number that rounds to
    zero keeps its sign. *)

Example round_examples :
  PyFloat.round 2.675 2 = 2.67%float /\
  PyFloat.round 0.125 2 = 0.12%float /\
  PyFloat.round 0.375 2 = 0.38%float /\
  PyFloat.round (-0.001) 2 = neg_zero /\
  PyFloat.round 1234.5678 2 = 1234.57%float /\
  PyFloat.round infinity 2 = infinity.
Proof. repeat split; vm_compute; reflexivity. Qed.

(** ** The values pinned by the repository's tests *)

Example test_calculate_amortization_amount_happy_path :
  calc_exact 150000 0.1 36 MONTHLY = Ok 4840.08%float /\
  calc_exact 200000 0.05 24 MONTHLY = Ok 8774.28%float /\
  calc_exact 100000 0.07 12 SEMIMONTHLY = Ok 8492.16%float /\
  calc_exact 50000 0.08 48 QUARTERLY = Ok 1630.09%float.
Proof. repeat split; vm_compute; reflexivity. Qed.

Example test_calculate_amortization_amount_edge_cases :
  calc_exact 0 0.1 36 MONTHLY = Ok 0%float /\
  calc_exact 150000 0.1 1 MONTHLY = Ok 151250%float.
Proof. split; vm_compute; reflexivity. Qed.

Example test_calculate_amortization_amount_zero_interest_rate :
  calc_exact 150000 0 36 MONTHLY = Raise ZeroDivisionError.
Proof. vm_compute. reflexivity. Qed.

(** Months 1, 14 and 36 of the schedule served for the loan of
    [example_db], as the endpoint rounds them. *)
Example test_get_loan_schedule_endpoint :
  let served :=
    match schedule_exact 1000 (5 / 100) 36 MONTHLY with
    | Ok rows =>
        map (fun r => (period r, PyFloat.round (remaining_balance r) 2,
                       PyFloat.round (payment_amount r) 2)) rows
    | Raise _ => []
    end in
  length served = 36%nat /\
  nth_error served 0 = Some (1, 974.2%float, 29.97%float) /\
  nth_error served 13 = Some (14, 628.78%float, 29.97%float) /\
  nth_error served 35 = Some (36, 0%float, 29.98%float).
Proof. vm_compute. repeat split. Qed.

Example test_get_loan_summary_endpoint :
  summary_exact 1 14 example_db
  = Ok {| current_principal_balance := 628.78%float;
          aggregate_principal_paid := 371.22%float;
          aggregate_interest_paid := 48.36%float |}.
Proof. vm_compute. reflexivity. Qed.

(** ** Instances of the theorems *)

Lemma three_months_schedule :
  schedule_exact 1000 (5 / 100) 3 MONTHLY = Ok three_months.
Proof. vm_compute. reflexivity. Defined.

Lemma three_months_payment :
  calc_exact 1000 (5 / 100) 3 MONTHLY = Ok 336.11%float.
Proof. vm_compute. reflexivity. Defined.

Lemma final_row_closes_balance_witness :
  exists body final,
    three_months = body ++ [final] /\
    length body = 2%nat /\
    remaining_balance final = 0%float /\
    principal_component final = last (map remaining_balance body) 1000%float /\
    interest_component final
    = PyFloat.round (last (map remaining_balance body) 1000 * (5 / 100 / 12))%float 2 /\
    payment_amount final
    = (last (map remaining_balance body) 1000
       + PyFloat.round (last (map remaining_balance body) 1000 * (5 / 100 / 12)) 2)%float.
Proof.
  exact (proj2 (final_row_closes_balance PyFloat.libm_pow_exact
                  1000 (5 / 100) 3 MONTHLY)
           three_months three_months_schedule).
Defined.

Lemma schedule_has_period_rows_witness :
  exists rows,
    schedule_exact 1000 (5 / 100) 3 MONTHLY = Ok rows /\
    length rows = 3%nat /\
    map period rows = [1; 2; 3].
Proof.
  exact (proj2 (schedule_has_period_rows PyFloat.libm_pow_exact
                  1000 (5 / 100) 3 MONTHLY eq_refl)
           336.11%float three_months_payment).
Defined.

Lemma single_period_schedule_witness :
  schedule_exact 150000 0.1 1 MONTHLY
  = Ok [ {| period := 1;
            payment_amount := 151250;
            interest_component := 1250;
            principal_component := 150000;
            remaining_balance := 0 |} ].
Proof.
  exact (proj2 (single_period_schedule PyFloat.libm_pow_exact 150000 0.1 MONTHLY)
           151250%float ltac:(vm_compute; reflexivity)).
Defined.

Lemma payment_splits_into_components_witness :
  exists body final,
    three_months = body ++ [final] /\
    payment_amount final
    = (interest_component final + principal_component final)%float /\
    Forall (fun r => principal_component r
                     = (payment_amount r - interest_component r)%float) body.
Proof.
  exact (payment_splits_into_components PyFloat.libm_pow_exact
           1000 (5 / 100) 3 MONTHLY three_months three_months_schedule).
Defined.

Lemma zero_rate_raises_witness :
  calc_exact 150000 0 36 MONTHLY = Raise ZeroDivisionError.
Proof.
  exact (zero_rate_raises PyFloat.libm_pow_exact 150000 0 36 MONTHLY eq_refl).
Defined.

Lemma non_positive_period_unchecked_witness :
  schedule_exact 1000 (5 / 100) 0 MONTHLY = Raise ZeroDivisionError /\
  schedule_exact 1000 (5 / 100) (-3) MONTHLY
  = Ok [ {| period := -3;
            payment_amount := 1004.17;
            interest_component := 4.17;
            principal_component := 1000;
            remaining_balance := 0 |} ].
Proof.
  destruct (non_positive_period_unchecked PyFloat.libm_pow_exact
              1000 (5 / 100) MONTHLY) as [Hzero Hneg].
  split; [exact Hzero|].
  exact (proj2 (Hneg (-3) eq_refl) (-331.95)%float ltac:(vm_compute; reflexivity)).
Defined.

Lemma summary_capped_at_term_witness :
  summary_exact 1 37 example_db = summary_exact 1 36 example_db /\
  exists s, summary_exact 1 37 example_db = Ok s.
Proof.
  destruct (summary_capped_at_term PyFloat.libm_pow_exact example_db 1
              example_loan
              37 eq_refl ltac:(discriminate) eq_refl) as [Hsame Hsome].
  split; [exact Hsame|].
  exact (Hsome 29.97%float ltac:(vm_compute; reflexivity)).
Defined.

Lemma summary_at_month_zero_witness :
  summary_exact 1 0 example_db
  = Ok {| current_principal_balance := 0%float;
          aggregate_principal_paid := 0%float;
          aggregate_interest_paid := 0%float |}.
Proof.
  destruct (amortization_schedule_returns PyFloat.libm_pow_exact
              1000 (5 / 100) 36 MONTHLY 29.97%float
              ltac:(vm_compute; reflexivity)) as [rows Hrows].
  exact (proj2 (summary_at_month_zero PyFloat.libm_pow_exact example_db 1
                  example_loan eq_refl) rows Hrows).
Defined.

Lemma balance_non_increasing_witness :
  non_increasing (1000%float :: map remaining_balance three_months).
Proof.
  apply (balance_non_increasing PyFloat.libm_pow_exact
           1000 (5 / 100) 3 MONTHLY three_months three_months_schedule).
  repeat constructor.
Defined.

(** ** Inputs on which the specification's sentences fail *)

(** C3.  A loan at a zero rate over 12 periods: the generator raises before
    its first row, so it does not yield 12 rows. *)
Lemma zero_rate_schedule_yields_no_rows :
  0 < 12 /\
  schedule_exact 1000 0 12 MONTHLY = Raise ZeroDivisionError /\
  ~ exists rows,
      schedule_exact 1000 0 12 MONTHLY = Ok rows /\ length rows = Z.to_nat 12.
Proof.
  split; [reflexivity|]. split; [vm_compute; reflexivity|].
  intros (rows & H & _). vm_compute in H. discriminate.
Qed.

(** C4.  The documented zero-rate call of the error-case test: a division
    error, not [round(150000 / 36, 2)]. *)
Lemma zero_rate_payment_is_division_error :
  calc_exact 150000 0 36 MONTHLY = Raise ZeroDivisionError /\
  calc_exact 150000 0 36 MONTHLY <> Ok (PyFloat.round (150000 / 36) 2).
Proof.
  assert (H : calc_exact 150000 0 36 MONTHLY = Raise ZeroDivisionError)
    by (vm_compute; reflexivity).
  split; [exact H|]. rewrite H. discriminate.
Qed.

(** C5.  A negative number of periods is not rejected: one row comes back. *)
Lemma negative_period_yields_a_row :
  -3 <= 0 /\
  exists row, schedule_exact 1000 (5 / 100) (-3) MONTHLY = Ok [row] /\
              period row = -3 /\ principal_component row = 1000%float.
Proof.
  split; [discriminate|]. eexists. split; [vm_compute; reflexivity|].
  split; reflexivity.
Qed.

(** C6.  A loan of 0.06 at 10% over 12 months: the payment rounds up to
    0.01, the balance is overpaid to -0.05 by month 11, and the closing row
    takes it back up to 0. *)
Lemma overpaid_balance_rises_to_zero :
  (0 <? 0.06)%float = true /\ (0 <=? 0.1)%float = true /\
  exists rows eleventh twelfth,
    schedule_exact 0.06 0.1 12 MONTHLY = Ok rows /\
    nth_error rows 10 = Some eleventh /\
    nth_error rows 11 = Some twelfth /\
    (remaining_balance eleventh <? remaining_balance twelfth)%float = true.
Proof.
  split; [reflexivity|]. split; [reflexivity|].
  destruct (schedule_exact 0.06 0.1 12 MONTHLY) as [rows|e] eqn:E;
    vm_compute in E; [|discriminate].
  injection E as <-. eexists _, _, _. split; [reflexivity|].
  split; [reflexivity|]. split; reflexivity.
Qed.

(** A loan of 0.01 at 10% over 4 months: payment and interest both round to
    0, and the balance stays at 0.01 until the closing row. *)
Example small_balance_stays_level :
  exists rows,
    schedule_exact 0.01 0.1 4 MONTHLY = Ok rows /\
    map remaining_balance rows = [0.01; 0.01; 0.01; 0]%float.
Proof. eexists. split; vm_compute; reflexivity. Qed.

(** C7.  A positive rate so small that [1 + rate / 12] is [1.0]: the payment
    formula divides by zero and no row is yielded. *)
Lemma vanishing_rate_single_period_raises :
  (0 <? 1000)%float = true /\ (0 <? 1e-17)%float = true /\
  schedule_exact 1000 1e-17 1 MONTHLY = Raise ZeroDivisionError /\
  ~ exists rows, schedule_exact 1000 1e-17 1 MONTHLY = Ok rows.
Proof.
  split; [reflexivity|]. split; [reflexivity|]. split; [vm_compute; reflexivity|].
  intros (rows & H). vm_compute in H. discriminate.
Qed.

(** C8.  A stored loan over -3 months, which nothing on the way to the
    table refuses.  Month 1 lies beyond the term; the schedule is the single
    closing row, which the summary at month 1 folds, while the summary at the
    term, month -3, folds no row.  The two summaries differ. *)
Lemma negative_term_summary_is_not_capped :
  let loan := {| id := 7; amount := 1000; annual_interest_rate := 5;
                 loan_term_months := -3; frequency := MONTHLY; user_id := 1 |} in
  let db := [loan] in
  query_first db 7 = Some loan /\
  loan_term_months loan < 1 /\
  summary_exact 7 1 db
  = Ok {| current_principal_balance := 0; aggregate_principal_paid := 1000;
          aggregate_interest_paid := 4.17 |} /\
  summary_exact 7 (loan_term_months loan) db
  = Ok {| current_principal_balance := 0; aggregate_principal_paid := 0;
          aggregate_interest_paid := 0 |} /\
  summary_exact 7 1 db <> summary_exact 7 (loan_term_months loan) db.
Proof.
  intros loan db.
  assert (Hone : summary_exact 7 1 db
                 = Ok {| current_principal_balance := 0;
                         aggregate_principal_paid := 1000;
                         aggregate_interest_paid := 4.17 |})
    by (vm_compute; reflexivity).
  assert (Hterm : summary_exact 7 (loan_term_months loan) db
                  = Ok {| current_principal_balance := 0;
                          aggregate_principal_paid := 0;
                          aggregate_interest_paid := 0 |})
    by (vm_compute; reflexivity).
  split; [reflexivity|]. split; [reflexivity|].
  split; [exact Hone|]. split; [exact Hterm|].
  rewrite Hone, Hterm. intros H.
  apply (f_equal (fun outcome => match outcome with
                                 | Ok s => aggregate_principal_paid s
                                 | Raise _ => 0%float
                                 end)) in H.
  cbn in H. revert H. apply eqb_false_neq; reflexivity.
Qed.

(** C9.  The summary at month 0 of the loan of 1000 in [example_db]: the
    current balance is 0, not the principal. *)
Lemma month_zero_balance_is_not_principal :
  query_first example_db 1
  = Some example_loan /\
  exists s,
    summary_exact 1 0 example_db = Ok s /\
    current_principal_balance s = 0%float /\
    current_principal_balance s <> 1000%float.
Proof.
  split; [reflexivity|]. eexists. split; [vm_compute; reflexivity|].
  split; [reflexivity|]. apply eqb_false_neq; reflexivity.
Qed.

(** C10.  Month 4 of a loan of 1000 at 6% over 24 months: the payment is
    44.32 and the interest 4.41, the principal component [44.32 - 4.41] is
    rounded to the nearest float, and adding the interest back gives the
    float below 44.32. *)
Lemma components_do_not_add_up_to_payment :
  exists rows fourth,
    schedule_exact 1000 0.06 24 MONTHLY = Ok rows /\
    nth_error rows 3 = Some fourth /\
    payment_amount fourth = 44.32%float /\
    interest_component fourth = 4.41%float /\
    (interest_component fourth + principal_component fourth)%float
    = next_down 44.32%float /\
    payment_amount fourth
    <> (interest_component fourth + principal_component fourth)%float.
Proof.
  destruct (schedule_exact 1000 0.06 24 MONTHLY) as [rows|e] eqn:E;
    vm_compute in E; [|discriminate].
  injection E as <-. eexists _, _. split; [reflexivity|].
  split; [reflexivity|]. split; [reflexivity|]. split; [reflexivity|].
  split; [vm_compute; reflexivity|]. apply eqb_false_neq; vm_compute; reflexivity.
Qed.

(** ** Instances of the properties of what is served and stored *)

Lemma example_served_schedule :
  get_loan_schedule PyFloat.libm_pow_exact 1 example_db = Ok example_served.
Proof. vm_compute. reflexivity. Qed.

Lemma example_payment : calc_exact 1000 (5 / 100) 36 MONTHLY = Ok 29.97%float.
Proof. vm_compute. reflexivity. Qed.

Lemma served_schedule_rows_witness :
  exists body final,
    served_exact 1 example_db = Ok (body ++ [final]) /\
    map LoanSchedule.month (body ++ [final]) = numbers_from 1 36 /\
    Forall (fun s => LoanSchedule.monthly_payment s = 29.97%float) body /\
    LoanSchedule.remaining_balance final = 0%float.
Proof.
  exact (proj2 (served_schedule_rows PyFloat.libm_pow_exact example_db 1
                  example_loan eq_refl eq_refl)
           29.97%float example_payment).
Defined.

Lemma summary_balance_is_served_balance_witness :
  exists s entry,
    summary_exact 1 14 example_db = Ok s /\
    nth_error example_served 13 = Some entry /\
    current_principal_balance s = LoanSchedule.remaining_balance entry.
Proof.
  exact (summary_balance_is_served_balance PyFloat.libm_pow_exact example_db 1 14
           example_served example_served_schedule ltac:(discriminate)).
Defined.

Lemma summary_at_term_is_paid_off_witness :
  exists s,
    summary_exact 1 36 example_db = Ok s /\
    current_principal_balance s = 0%float.
Proof.
  exact (proj2 (summary_at_term_is_paid_off PyFloat.libm_pow_exact example_db 1
                  example_loan 36 eq_refl ltac:(discriminate) ltac:(discriminate))
           29.97%float example_payment).
Defined.

Lemma negative_month_counts_from_end_witness :
  summary_exact 1 (-22) example_db = summary_exact 1 14 example_db.
Proof.
  exact (negative_month_counts_from_end PyFloat.libm_pow_exact example_db 1
           example_loan (-22) eq_refl eq_refl eq_refl).
Defined.

Lemma zero_rate_loan_is_not_served_witness :
  served_exact 2 zero_rate_db = Raise ZeroDivisionError /\
  summary_exact 2 0 zero_rate_db = Raise ZeroDivisionError.
Proof.
  exact (zero_rate_loan_is_not_served PyFloat.libm_pow_exact zero_rate_db 2
           zero_rate_loan 0 eq_refl eq_refl).
Defined.

(** The second row of [three_months]: its interest is the rounded interest
    on the balance the first row has left. *)
Lemma schedule_recurrence_witness :
  exists a,
    calc_exact 1000 (5 / 100) 3 MONTHLY = Ok a /\
    forall r,
      nth_error three_months 1 = Some r ->
      interest_component r = PyFloat.round (668.06 * (5 / 100 / 12))%float 2 /\
      payment_amount r = a /\
      principal_component r = (a - interest_component r)%float /\
      remaining_balance r = (668.06 - principal_component r)%float.
Proof.
  destruct (schedule_recurrence PyFloat.libm_pow_exact 1000 (5 / 100) 3 MONTHLY
              three_months three_months_schedule) as (a & Ha & Hrows).
  exists a. split; [exact Ha|]. intros r Hr.
  destruct (Hrows 1%nat r Hr) as (Hi & Hbody & _).
  split; [exact Hi|]. apply Hbody. vm_compute. lia.
Defined.

Lemma zero_principal_payment_witness :
  exists a, calc_exact 0 0.1 36 MONTHLY = Ok a /\ zero_or_nan a.
Proof.
  exact (proj2 (zero_principal_payment PyFloat.libm_pow_exact 0 150000 0.1 36 MONTHLY
                  eq_refl)
           4840.08%float ltac:(vm_compute; reflexivity)).
Defined.

Example negative_principal_payment :
  calc_exact (-150000) 0.1 36 MONTHLY = Ok (-4840.08)%float.
Proof. vm_compute. reflexivity. Qed.

(** The registration of [test_create_user_endpoint_email_exists], sent
    twice. *)
Lemma registration_rejects_known_email_witness :
  let user := {| UserCreate.email := "test2@example.com";
                 UserCreate.password := "test2" |} in
  let db_user := {| User.id := 1; User.email := "test2@example.com";
                    User.hashed_password := "test2notreallyhashed";
                    User.is_active := true |} in
  let db' := {| users := [db_user]; loans := [] |} in
  create_user_endpoint next_rowid user empty_store = Returns (db_user, db') /\
  get_user_by_email db' "test2@example.com" = Some db_user /\
  create_user_endpoint next_rowid user db'
  = Raises_HTTPException 400 "Email test2@example.com already registered"%string.
Proof.
  intros user db_user db'.
  exact (proj2 (registration_rejects_known_email next_rowid user empty_store)
           (fun H => H)).
Defined.

Lemma emails_stay_unique_witness :
  let user := {| UserCreate.email := "test9@example.com";
                 UserCreate.password := "test9" |} in
  let db_user := {| User.id := 3; User.email := "test9@example.com";
                    User.hashed_password := "test9notreallyhashed";
                    User.is_active := true |} in
  NoDup (map User.email [first_user; second_user; db_user]) /\
  forall u, In u (users example_store) -> In u [first_user; second_user; db_user].
Proof.
  intros user db_user.
  apply (emails_stay_unique next_rowid user example_store db_user
           {| users := [first_user; second_user; db_user]; loans := example_db |}).
  - repeat constructor; cbn; intuition discriminate.
  - reflexivity.
Defined.

Lemma stored_row_is_found_witness :
  (get_user example_store 2 = Some second_user /\
   get_user_by_email example_store "test8@example.com" = Some second_user) /\
  query_first (loans example_store) 1 = Some example_loan.
Proof.
  assert (Hid : NoDup (map User.id (users example_store)))
    by (repeat constructor; cbn; intuition discriminate).
  assert (Hemail : NoDup (map User.email (users example_store)))
    by (repeat constructor; cbn; intuition discriminate).
  assert (Hloan : NoDup (map id (loans example_store)))
    by (repeat constructor; cbn; intuition discriminate).
  destruct (stored_row_is_found example_store Hid Hemail Hloan) as [Husers Hloans].
  split.
  - apply (Husers second_user). cbn. auto.
  - apply (Hloans example_loan). cbn. auto.
Defined.

(** The counts of [test_get_users], for any table of ten users. *)
Example test_get_users db :
  length (users db) = 10%nat ->
  map (fun page => Z.of_nat (length (get_users db (fst page) (snd page))))
    [(0, 5); (5, 5); (0, 10); (10, 5); (0, 0); (-1, 5); (0, -1)]
  = [5; 5; 10; 0; 0; 5; 10].
Proof.
  intros H. cbn [map fst snd]. unfold get_users.
  rewrite !offset_limit_length, H. reflexivity.
Qed.

Lemma user_pages_tile_witness :
  get_users example_store 0 1 ++ get_users example_store 1 1
  = get_users example_store 0 2.
Proof.
  exact (user_pages_tile example_store 0 1 1
           ltac:(discriminate) ltac:(discriminate) ltac:(discriminate)).
Defined.

Lemma user_loans_belong_to_user_witness :
  exists held,
    get_user_loans 1 example_store 0 100 = Returns held /\
    Forall (fun l => In l (loans example_store) /\ user_id l = 1) held /\
    (0 <= 100 -> Z.of_nat (length held) <= 100) /\
    (0 <= 0 -> Z.of_nat (length (loans example_store)) <= 100 ->
     held = filter (fun l => user_id l =? 1) (loans example_store)).
Proof.
  apply (proj2 (user_loans_belong_to_user example_store 1 0 100)).
  cbn. auto.
Defined.

(** The sharing of [test_share_loan_endpoint]. *)
Lemma share_loan_moves_the_loan_witness :
  exists db',
    share_loan 1 2 example_store = Returns ("Loan shared successfully"%string, db') /\
    users db' = users example_store /\
    query_first (loans db') 1 = Some (with_owner 2 example_loan) /\
    forall other,
      other <> 1 -> query_first (loans db') other = query_first example_db other.
Proof.
  apply (proj2 (proj2 (share_loan_moves_the_loan example_store 1 2)) example_loan).
  - reflexivity.
  - cbn. auto.
Defined.

Lemma share_loan_returns : share_loan 1 2 example_store
                           = Returns ("Loan shared successfully"%string, shared_store).
Proof. reflexivity. Qed.

Lemma shared_loan_changes_hands_witness :
  (forall skip limit kept,
     get_user_loans 1 shared_store skip limit = Returns kept ->
     ~ In 1 (map id kept)) /\
  (forall limit,
     1 <= limit ->
     exists held,
       get_user_loans 2 shared_store 0 limit = Returns held /\
       In (with_owner 2 example_loan) held).
Proof.
  exact (shared_loan_changes_hands example_store shared_store 1 2 example_loan _
           share_loan_returns eq_refl ltac:(discriminate)).
Defined.

Lemma sharing_keeps_schedules_witness :
  served_exact 1 (loans shared_store) = served_exact 1 example_db /\
  summary_exact 1 14 (loans shared_store) = summary_exact 1 14 example_db.
Proof.
  exact (sharing_keeps_schedules PyFloat.libm_pow_exact example_store shared_store
           1 2 _ share_loan_returns 1 14).
Defined.
